(** * bigwig-js: the block-view query engine

    A shallow embedding of [src/blockView.ts], [src/util.ts] and the [Range]
    class, and the properties of the block-view specification that can be
    settled on it.  The bigWig decoder of [src/requestWorker.ts], which uses
    the same [Range] and [groupBlocks], is embedded for comparison.

    Conventions of the embedding.
    - A JavaScript number that holds an integer (offsets, lengths, coordinates,
      counts) is a [Z].  The 32-bit fields and what the decoders compute from
      them stay far below 2^53.  A 64-bit file offset need not: where
      [blockView.ts] reads one or computes with one, the rounding to a
      binary64 is written out ([Number.round]).  The 32-bit wrap-around of
      the [| 0] of [groupBlocks] is written out as well ([ToInt32]).
    - A JavaScript number that holds a score is a binary64 [float]; a [f32]
      field of the file is widened exactly.
    - A [Buffer] is a [list byte]; the file is a [list byte] as well.
    - A property that an object may lack is an [option]; a number that may
      be [undefined] or [NaN] is an [option Z].
    - [refsByName] is the map from names to ids of the specification.
    - An exception is the [Throw] of the [result] monad.
    - Observer callbacks, reads and console output are events of a trace. *)

From Stdlib Require Import ZArith List Lia Bool Permutation Sorted.
From Stdlib Require Import Strings.Byte Strings.String.
From Stdlib Require Import PrimFloat FloatOps SpecFloat.
From stdpp Require Import base option list sorting gmap strings pretty.

Local Open Scope Z_scope.

(** ** Exceptions and the error monad *)

Inductive exception : Type :=
| RangeError             (* a read outside of the buffer, a negative length *)
| UndefinedTag (tag : Z) (* binary-parser: choice() met a tag it has no case for *)
| TypeError              (* a property of undefined was read, something that
                            is no function was called, Buffer.alloc(undefined) *)
| InflateError           (* zlib.inflateSync failed *)
| DidNotComplete.        (* new Error('did not complete') *)

Inductive result (A : Type) : Type :=
| Ok (a : A)
| Throw (e : exception).
Arguments Ok {A} a.
Arguments Throw {A} e.

Definition rbind {A B} (r : result A) (k : A -> result B) : result B :=
  match r with
  | Ok a => k a
  | Throw e => Throw e
  end.

(** ** Numbers

    An integer is held exactly by a binary64 up to 2^53 in absolute value;
    beyond, it is rounded to 53 significant bits, ties to even. *)

Module Number.

Definition round (z : Z) : Z :=
  let a := Z.abs z in
  if a <? 2 ^ 53 then z
  else
    let ulp := 2 ^ (Z.log2 a - 52) in
    let q := a / ulp in
    let r := a mod ulp in
    let q := if (2 * r <? ulp) || ((2 * r =? ulp) && Z.even q) then q
             else q + 1 in
    Z.sgn z * (q * ulp).

End Number.

(** ** Buffers *)

Module Buffer.

Abbreviation t := (list byte).

Definition byteLength (buf : t) : Z := Z.of_nat (length buf).

(** [buf.slice(start)]: a negative [start] counts from the end, and the
    result is clamped to the buffer. *)
Definition slice (buf : t) (start : Z) : t :=
  let len := byteLength buf in
  let s := if start <? 0 then Z.max (len + start) 0 else Z.min start len in
  drop (Z.to_nat s) buf.

Definition byte_val (b : byte) : Z := Z.of_N (Byte.to_N b).

(** The unsigned value of a little-endian byte string. *)
Fixpoint le_value (bs : list byte) : Z :=
  match bs with
  | [] => 0
  | b :: bs' => byte_val b + 256 * le_value bs'
  end.

Definition value (bigEndian : bool) (bs : list byte) : Z :=
  if bigEndian then le_value (rev bs) else le_value bs.

(** Two's complement reading of a 32-bit pattern. *)
Definition to_int32 (w : Z) : Z :=
  if w <? 2 ^ 31 then w else w - 2 ^ 32.

(** The binary64 number that a binary32 bit pattern denotes. *)
Definition float_of_bits32 (w : Z) : float :=
  let s := Z.testbit w 31 in
  let e := Z.land (Z.shiftr w 23) 255 in
  let m := Z.land w (2 ^ 23 - 1) in
  if e =? 255 then
    if m =? 0 then (if s then neg_infinity else infinity) else nan
  else if e =? 0 then
    if m =? 0 then SF2Prim (S754_zero s)
    else SF2Prim (S754_finite s (Z.to_pos m) (-149))
  else SF2Prim (S754_finite s (Z.to_pos (m + 2 ^ 23)) (e - 150)).

(** Encoders, for writing test buffers. *)
Definition byte_of_Z (z : Z) : byte :=
  match Byte.of_N (Z.to_N (z mod 256)) with
  | Some b => b
  | None => Byte.x00
  end.

Fixpoint le_bytes (n : nat) (z : Z) : list byte :=
  match n with
  | O => []
  | S n' => byte_of_Z z :: le_bytes n' (z / 256)
  end.

Definition bytes (bigEndian : bool) (n : nat) (z : Z) : list byte :=
  if bigEndian then rev (le_bytes n z) else le_bytes n z.

End Buffer.

(** ** The combinators of [@gmod/binary-parser]

    A parser reads from the front of the bytes that remain; [parse] returns
    the result together with the number of bytes consumed ([offset]). *)

Module Parser.

Definition t (A : Type) : Type := Buffer.t -> result (A * Buffer.t).

Definition ret {A} (a : A) : t A := fun buf => Ok (a, buf).

Definition bind {A B} (p : t A) (k : A -> t B) : t B :=
  fun buf =>
    match p buf with
    | Ok (a, rest) => k a rest
    | Throw e => Throw e
    end.

Definition fail {A} (e : exception) : t A := fun _ => Throw e.

(** Reading [n] bytes: [Buffer.readUIntXX] throws outside of the buffer. *)
Definition read (n : nat) : t (list byte) :=
  fun buf =>
    if (n <=? length buf)%nat then Ok (take n buf, drop n buf)
    else Throw RangeError.

(** [skip(n)] only advances the offset. *)
Definition skip (n : nat) : t unit := fun buf => Ok (tt, drop n buf).

Definition uint (n : nat) (bigEndian : bool) : t Z :=
  bind (read n) (fun bs => ret (Buffer.value bigEndian bs)).

Definition uint8 : t Z := uint 1 false.
Definition uint16 := uint 2.
Definition uint32 := uint 4.

(** [uint64] is [Long.fromBytes(buffer.slice(offset, offset + 8), true,
    le).toNumber()]: [slice] is clamped to the buffer and throws nothing, a
    byte that is missing counts as zero, and the value is rounded to a
    binary64.  The offset moves on by 8, also past the end of the buffer. *)
Definition uint64 (bigEndian : bool) : t Z :=
  fun buf =>
    let bs := take 8 buf in
    Ok (Number.round
          (Buffer.value bigEndian (bs ++ replicate (8 - length bs) Byte.x00)),
        drop 8 buf).

Definition int32 (bigEndian : bool) : t Z :=
  bind (uint32 bigEndian) (fun w => ret (Buffer.to_int32 w)).

Definition float (bigEndian : bool) : t PrimFloat.float :=
  bind (uint32 bigEndian) (fun w => ret (Buffer.float_of_bits32 w)).

(** [string(_, { zeroTerminated: true })]: the bytes up to the first zero
    byte, which is consumed; reading past the end throws. *)
Fixpoint zstring (buf : Buffer.t) : result (list byte * Buffer.t) :=
  match buf with
  | [] => Throw RangeError
  | b :: rest =>
      if Byte.eqb b Byte.x00 then Ok ([], rest)
      else match zstring rest with
           | Ok (s, rest') => Ok (b :: s, rest')
           | Throw e => Throw e
           end
  end.

(** [array(_, { length: n, type: p })]. *)
Fixpoint array {A} (n : nat) (p : t A) : t (list A) :=
  match n with
  | O => ret []
  | S n' => bind p (fun a => bind (array n' p) (fun l => ret (a :: l)))
  end.

(** [parse(buf)] returns [{ result, offset }].  The code reads [offset]
    after [summaryParser] and [bigBedParser] only, which neither [skip] nor
    read a [uint64]: no offset past the end of the buffer is involved. *)
Definition parse {A} (p : t A) (buf : Buffer.t) : result (A * Z) :=
  match p buf with
  | Ok (a, rest) => Ok (a, Buffer.byteLength buf - Buffer.byteLength rest)
  | Throw e => Throw e
  end.

End Parser.

Declare Scope parser_scope.
Delimit Scope parser_scope with parser.
Notation "'let!' x ':=' p 'in' k" := (Parser.bind p (fun x => k))
  (at level 10, x name, p at level 100, k at level 200) : parser_scope.
Notation "'skip!' n 'in' k" := (Parser.bind (Parser.skip n) (fun _ => k))
  (at level 10, n at level 100, k at level 200) : parser_scope.
Notation "'let?' x ':=' r 'in' k" := (rbind r (fun x => k))
  (at level 10, x pattern, r at level 100, k at level 200).

(** ** Features and the records of the file *)

(** The objects handed to the observer.  A summary feature carries [start],
    [end], [score], [minScore], [maxScore] and [summary]; a bigWig feature
    [start], [end] and [score]; a bigBed feature [chromId], [start], [end],
    [rest] and [uniqueId]. *)
Record Feature : Type := mkFeature {
  start : option Z;
  end_ : option Z;
  score : option float;
  minScore : option float;
  maxScore : option float;
  summary : bool;
  chromId : option Z;
  rest : option (list byte);
  uniqueId : option string
}.

Record CoordRequest : Type := mkRequest {
  chrId : option Z;   (* [refsByName[chrName]], undefined for an unknown name *)
  req_start : Z;
  req_end : Z
}.

Record SummaryBlock : Type := mkSummary {
  s_chromId : Z;
  s_start : Z;
  s_end : Z;
  s_validCnt : Z;
  s_minScore : float;
  s_maxScore : float;
  s_sumData : float;
  s_sumSqData : float
}.

(** An entry of a CIR node; [blockSize] is present in leaves only. *)
Record CirEntry : Type := mkEntry {
  startChrom : Z;
  startBase : Z;
  endChrom : Z;
  endBase : Z;
  blockOffset : Z;
  blockSize : option Z
}.

(** What [leafParser] returns: an object with [blocksToFetch] (a leaf,
    [isLeaf = 1]) or with [recurOffsets] ([isLeaf = 0]). *)
Module CirNode.
Inductive t : Type :=
| blocksToFetch (entries : list CirEntry)
| recurOffsets (entries : list CirEntry).
End CirNode.

Record BigWigHeader : Type := mkWigHeader {
  blockStart : Z;
  itemStep : Z;
  itemSpan : Z;
  blockType : Z;
  itemCount : Z
}.

Definition BIG_WIG_TYPE_GRAPH : Z := 1.
Definition BIG_WIG_TYPE_VSTEP : Z := 2.
Definition BIG_WIG_TYPE_FSTEP : Z := 3.

(** ** getParsers

    [endianess(le)] sets the byte order of the parser it is called on.  The
    parsers of the items of an array are built apart, with [new Parser()],
    and keep the byte order of a new parser, which is little-endian: the
    entries of an index node and the items of a bigWig block are read
    little-endian whatever the byte order of the view. *)

Section Parsers.
Variable isBigEndian : bool.
Local Open Scope parser_scope.

Definition summaryParser : Parser.t SummaryBlock :=
  let! chromId := Parser.uint32 isBigEndian in
  let! start := Parser.uint32 isBigEndian in
  let! end_ := Parser.uint32 isBigEndian in
  let! validCnt := Parser.uint32 isBigEndian in
  let! minScore := Parser.float isBigEndian in
  let! maxScore := Parser.float isBigEndian in
  let! sumData := Parser.float isBigEndian in
  let! sumSqData := Parser.float isBigEndian in
  Parser.ret (mkSummary chromId start end_ validCnt
                        minScore maxScore sumData sumSqData).

Definition leafEntry : Parser.t CirEntry :=
  let! startChrom := Parser.uint32 false in
  let! startBase := Parser.uint32 false in
  let! endChrom := Parser.uint32 false in
  let! endBase := Parser.uint32 false in
  let! blockOffset := Parser.uint64 false in
  let! blockSize := Parser.uint64 false in
  Parser.ret (mkEntry startChrom startBase endChrom endBase
                      blockOffset (Some blockSize)).

Definition innerEntry : Parser.t CirEntry :=
  let! startChrom := Parser.uint32 false in
  let! startBase := Parser.uint32 false in
  let! endChrom := Parser.uint32 false in
  let! endBase := Parser.uint32 false in
  let! blockOffset := Parser.uint64 false in
  Parser.ret (mkEntry startChrom startBase endChrom endBase
                      blockOffset None).

(** [choice] has no [defaultChoice]: an unlisted tag throws. *)
Definition leafParser : Parser.t CirNode.t :=
  let! isLeaf := Parser.uint8 in
  skip! 1 in
  let! cnt := Parser.uint16 isBigEndian in
  if isLeaf =? 1 then
    let! es := Parser.array (Z.to_nat cnt) leafEntry in
    Parser.ret (CirNode.blocksToFetch es)
  else if isLeaf =? 0 then
    let! es := Parser.array (Z.to_nat cnt) innerEntry in
    Parser.ret (CirNode.recurOffsets es)
  else Parser.fail (UndefinedTag isLeaf).

(** The bigBed record: [chromId], [start], [end], [rest]. *)
Definition bigBedParser : Parser.t Feature :=
  let! chromId := Parser.uint32 isBigEndian in
  let! start := Parser.int32 isBigEndian in
  let! end_ := Parser.int32 isBigEndian in
  let! rest := Parser.zstring in
  Parser.ret (mkFeature (Some start) (Some end_) None None None false
                        (Some chromId) (Some rest) None).

(** The items of a bigWig block: [{score}], [{start, score}] or
    [{start, end, score}]. *)
Definition item (start end_ : option Z) (score : float) : Feature :=
  mkFeature start end_ (Some score) None None false None None None.

Definition fstepItem : Parser.t Feature :=
  let! score := Parser.float false in
  Parser.ret (item None None score).

Definition vstepItem : Parser.t Feature :=
  let! start := Parser.int32 false in
  let! score := Parser.float false in
  Parser.ret (item (Some start) None score).

Definition graphItem : Parser.t Feature :=
  let! start := Parser.int32 false in
  let! end_ := Parser.int32 false in
  let! score := Parser.float false in
  Parser.ret (item (Some start) (Some end_) score).

(** [choice] has no [defaultChoice] here either. *)
Definition bigWigParser : Parser.t (BigWigHeader * list Feature) :=
  skip! 4 in
  let! blockStart := Parser.int32 isBigEndian in
  skip! 4 in
  let! itemStep := Parser.uint32 isBigEndian in
  let! itemSpan := Parser.uint32 isBigEndian in
  let! blockType := Parser.uint8 in
  skip! 1 in
  let! itemCount := Parser.uint16 isBigEndian in
  let header := mkWigHeader blockStart itemStep itemSpan blockType itemCount in
  if blockType =? BIG_WIG_TYPE_FSTEP then
    let! items := Parser.array (Z.to_nat itemCount) fstepItem in
    Parser.ret (header, items)
  else if blockType =? BIG_WIG_TYPE_VSTEP then
    let! items := Parser.array (Z.to_nat itemCount) vstepItem in
    Parser.ret (header, items)
  else if blockType =? BIG_WIG_TYPE_GRAPH then
    let! items := Parser.array (Z.to_nat itemCount) graphItem in
    Parser.ret (header, items)
  else Parser.fail (UndefinedTag blockType).

End Parsers.

(** ** Array.prototype.sort

    The engine's insertion sort: each element is moved left past the
    elements [tmp] of the sorted prefix for which [comparefn(tmp, element)]
    is positive.  The sorted prefix is kept with its last element first. *)

Module JsArray.
Section Sort.
Context {A : Type} (comparefn : A -> A -> Z).

Fixpoint insert (element : A) (prefix : list A) : list A :=
  match prefix with
  | [] => [element]
  | tmp :: prefix' =>
      if comparefn tmp element >? 0 then tmp :: insert element prefix'
      else element :: prefix
  end.

Definition sort (a : list A) : list A :=
  rev (fold_left (fun prefix element => insert element prefix) a []).
End Sort.
End JsArray.

(** ** range.ts

    The constructor sets the property [ranges]: to the array
    [[{ min, max }]] when it has two arguments; to [Object.assign({}, arg1)]
    when its one argument has an index 0, as an array that is not empty
    has: a plain object that holds the members of the array under their
    indices, without [length] and without the methods of an array. *)

Module Range.

(** A plain object [{ min, max }]. *)
Record span : Type := mkSpan { r_min : Z; r_max : Z }.

Inductive store : Type :=
| array (members : list span)
| object (members : list span).   (* the copy of an array *)

Record t : Type := mk { ranges : store }.

(** [new Range(arg1, arg2)] *)
Definition new (arg1 arg2 : Z) : t := mk (array [mkSpan arg1 arg2]).


Definition members (r : t) : list span :=
  match ranges r with
  | array l | object l => l
  end.

(** [this.ranges[0].min] *)
Definition min (r : t) : result Z :=
  match members r with
  | [] => Throw TypeError
  | s :: _ => Ok (r_min s)
  end.

(** [this.ranges[this.ranges.length - 1].max]: an object has no [length],
    and no member under [NaN]. *)
Definition max (r : t) : result Z :=
  match ranges r with
  | array l =>
      match last l with
      | None => Throw TypeError
      | Some s => Ok (r_max s)
      end
  | object _ => Throw TypeError
  end.

(** The loop runs while [s < this.ranges.length]: not once on an object. *)
Definition contains (r : t) (pos : Z) : bool :=
  match ranges r with
  | array l => existsb (fun s => (r_min s <=? pos) && (r_max s >=? pos)) l
  | object _ => false
  end.

(** [this.ranges.map(r => new Range(r.min, r.max))]: an object has no
    [map]. *)
Definition getRanges (r : t) : result (list t) :=
  match ranges r with
  | array l => Ok (List.map (fun s => new (r_min s) (r_max s)) l)
  | object _ => Throw TypeError
  end.

(** [s.ranges()]: [ranges] is the property above, which holds an array or
    an object and never a function.  The call throws a TypeError; there is
    nothing that it could return. *)
Definition call (f : store) : result Empty_set := Throw TypeError.

(** [union] starts with [s0.ranges()]; the statements that follow the call
    (the sort by [rangeOrder] and the loop that merges the spans) are not
    reached. *)
Definition union (s0 s1 : t) : result t :=
  let? r0 := call (ranges s0) in
  match r0 return result t with end.

End Range.

(** ** util.ts *)

Module Block.
(** A data-block descriptor [{ offset, size }], as [groupBlocks] reads it
    and as the workers build it. *)
Record t : Type := mk { offset : Z; size : Z }.
End Block.

Module Group.
Record t : Type := mk { blocks : list Block.t; size : Z; offset : Z }.
End Group.

Module Descriptor.
(** A data-block descriptor [{ offset, length }], as [blockView.ts] builds
    it: it has no [size]. *)
Record t : Type := mk { offset : Z; length : option Z }.
End Descriptor.

Module Util.

(** [x | 0]: the number modulo 2^32, read as a signed 32-bit integer. *)
Definition ToInt32 (x : Z) : Z :=
  let m := x mod 2 ^ 32 in
  if m <? 2 ^ 31 then m else m - 2 ^ 32.

Definition byOffset (b0 b1 : Block.t) : Z :=
  Z.lor (ToInt32 (Block.offset b0)) 0 - Z.lor (ToInt32 (Block.offset b1)) 0.

(** The variables of the loop.  [lastBlock] is a reference to a member of
    [blockGroups]: the index of that member. *)
Record vars : Type := mkVars {
  blockGroups : list Group.t;
  lastBlock : option nat;
  lastBlockEnd : Z      (* undefined, and unread, until [lastBlock] is set *)
}.

Definition groupEnd (groups : list Group.t) (i : nat) (otherwise : Z) : Z :=
  match groups !! i with
  | Some g => Group.offset g + Group.size g
  | None => otherwise
  end.

(** One turn of the loop, at [blocks[i] = b]. *)
Definition step (v : vars) (b : Block.t) : vars :=
  let fresh :=
    let groups :=
      blockGroups v ++ [Group.mk [b] (Block.size b) (Block.offset b)] in
    let i := length (blockGroups v) in
    mkVars groups (Some i) (groupEnd groups i (lastBlockEnd v)) in
  match lastBlock v with
  | Some i =>
      if Block.offset b - lastBlockEnd v <=? 2000 then
        let groups :=
          alter (fun g =>
                   Group.mk (Group.blocks g ++ [b])
                     (Group.size g
                      + (Block.size b - lastBlockEnd v + Block.offset b))
                     (Group.offset g))
                i (blockGroups v) in
        mkVars groups (Some i) (groupEnd groups i (lastBlockEnd v))
      else fresh
  | None => fresh
  end.

(** [groupBlocks(blocks)]: the groups it returns, and the caller's array
    as the call leaves it ([sort] works in place). *)
Definition groupBlocks (blocks : list Block.t) : list Group.t * list Block.t :=
  let blocks := JsArray.sort byOffset blocks in
  (blockGroups (fold_left step blocks (mkVars [] None 0)), blocks).

(** *** groupBlocks on descriptors of any kind

    [groupBlocks] reads the [offset] and the [size] of whatever objects it
    is given.  An object without [size] has [undefined] there, a sum or a
    difference with [undefined] is [NaN], and a comparison with [NaN] is
    false: [None] is [undefined] or [NaN]. *)

Module Loose.

Definition plus (x y : option Z) : option Z :=
  match x, y with
  | Some a, Some b => Some (a + b)
  | _, _ => None
  end.

Definition minus (x y : option Z) : option Z :=
  match x, y with
  | Some a, Some b => Some (a - b)
  | _, _ => None
  end.

Definition leb (x : option Z) (y : Z) : bool :=
  match x with
  | Some a => a <=? y
  | None => false
  end.

Record group (B : Type) : Type :=
  mkGroup { blocks : list B; size : option Z; offset : Z }.
Arguments mkGroup {B} blocks size offset.
Arguments blocks {B} g.
Arguments size {B} g.
Arguments offset {B} g.

Section Loose.
Context {B : Type}.
(** [b.offset] and [b.size] *)
Variable offset_of : B -> Z.
Variable size_of : B -> option Z.

Definition byOffset (b0 b1 : B) : Z :=
  Z.lor (ToInt32 (offset_of b0)) 0 - Z.lor (ToInt32 (offset_of b1)) 0.

Record vars : Type := mkVars {
  blockGroups : list (group B);
  lastBlock : option nat;
  lastBlockEnd : option Z
}.

Definition groupEnd (groups : list (group B)) (i : nat)
    (otherwise : option Z) : option Z :=
  match groups !! i with
  | Some g => plus (Some (offset g)) (size g)
  | None => otherwise
  end.

Definition step (v : vars) (b : B) : vars :=
  let fresh :=
    let groups := blockGroups v ++ [mkGroup [b] (size_of b) (offset_of b)] in
    let i := length (blockGroups v) in
    mkVars groups (Some i) (groupEnd groups i (lastBlockEnd v)) in
  match lastBlock v with
  | Some i =>
      if leb (minus (Some (offset_of b)) (lastBlockEnd v)) 2000 then
        let groups :=
          alter (fun g =>
                   mkGroup (blocks g ++ [b])
                     (plus (size g)
                        (plus (minus (size_of b) (lastBlockEnd v))
                              (Some (offset_of b))))
                     (offset g))
                i (blockGroups v) in
        mkVars groups (Some i) (groupEnd groups i (lastBlockEnd v))
      else fresh
  | None => fresh
  end.

Definition groupBlocks (blocks : list B) : list (group B) * list B :=
  let blocks := JsArray.sort byOffset blocks in
  (blockGroups (fold_left step blocks (mkVars [] None None)), blocks).

End Loose.
End Loose.

End Util.

(** ** blockView.ts: decoding a data block *)

Module BlockView.

(** [f.start < range.end && f.end >= range.start]; a comparison with
    [undefined] is false. *)
Definition coordFilter (f : Feature) (range : CoordRequest) : bool :=
  match start f, end_ f with
  | Some s, Some e => (s <? req_end range) && (e >=? req_start range)
  | _, _ => false
  end.

(** [request ? items.filter(f => this.coordFilter(f, request)) : items] *)
Definition filterRequest (request : option CoordRequest)
    (items : list Feature) : list Feature :=
  match request with
  | Some r => List.filter (fun f => coordFilter f r) items
  | None => items
  end.

(** [elt.chromId === request.chrId] *)
Definition sameChrom (elt : SummaryBlock) (request : CoordRequest) : bool :=
  match chrId request with
  | Some c => s_chromId elt =? c
  | None => false
  end.

Section Decoders.
Variable isBigEndian : bool.

(** The loop shared by [parseSummaryBlock] and [parseBigBedBlock]:

    while (currOffset < data.byteLength) {
      const res = parser.parse(data.slice(currOffset))
      items.push(visit(currOffset, res.result))
      currOffset += res.offset
    }

    Every successful [parse] consumes at least one byte, so
    [byteLength - currOffset] iterations are enough (see
    [records_unfold]); [n] counts them down. *)
Fixpoint recordsLoop {A} (parser : Parser.t A) (visit : Z -> A -> A)
    (n : nat) (data : Buffer.t) (currOffset : Z) (items : list A)
    : result (list A) :=
  match n with
  | O => Ok items
  | S n' =>
      if currOffset <? Buffer.byteLength data then
        let? (res, offset) :=
          Parser.parse parser (Buffer.slice data currOffset) in
        recordsLoop parser visit n' data (currOffset + offset)
                    (items ++ [visit currOffset res])
      else Ok items
  end.

Definition records {A} (parser : Parser.t A) (visit : Z -> A -> A)
    (data : Buffer.t) (currOffset : Z) (items : list A) : result (list A) :=
  recordsLoop parser visit
    (Z.to_nat (Buffer.byteLength data - currOffset)) data currOffset items.

(** [validCnt || 1] *)
Definition orOne (validCnt : Z) : Z :=
  if validCnt =? 0 then 1 else validCnt.

(** A count as a JavaScript number. *)
Definition number (z : Z) : float := of_uint63 (Uint63Axioms.of_Z z).

Definition summaryFeature (elt : SummaryBlock) : Feature :=
  {| start := Some (s_start elt);
     end_ := Some (s_end elt);
     maxScore := Some (s_maxScore elt);
     minScore := Some (s_minScore elt);
     score := Some (s_sumData elt / number (orOne (s_validCnt elt)))%float;
     summary := true;
     chromId := None; rest := None; uniqueId := None |}.

Definition parseSummaryBlock (data : Buffer.t) (startOffset : Z)
    (request : option CoordRequest) : result (list Feature) :=
  let? features :=
    records (summaryParser isBigEndian) (fun _ r => r) data startOffset [] in
  let items :=
    match request with
    | Some r => List.filter (fun elt => sameChrom elt r) features
    | None => features
    end in
  let items := List.map summaryFeature items in
  Ok (filterRequest request items).

(** [res.result.uniqueId = `bb-${startOffset + currOffset}`] *)
Definition setUniqueId (startOffset currOffset : Z) (f : Feature) : Feature :=
  {| start := start f; end_ := end_ f; score := score f;
     minScore := minScore f; maxScore := maxScore f; summary := summary f;
     chromId := chromId f; rest := rest f;
     uniqueId := Some ("bb-" +:+ pretty (startOffset + currOffset)) |}.

Definition parseBigBedBlock (data : Buffer.t) (startOffset : Z)
    (request : option CoordRequest) : result (list Feature) :=
  let? items :=
    records (bigBedParser isBigEndian) (setUniqueId startOffset)
            data startOffset [] in
  Ok (filterRequest request items).

(** [{ ...feature, start: index * step, end: index * step + span }] *)
Definition fstepFeature (step span : Z) (index : nat) (feature : Feature)
    : Feature :=
  {| start := Some (Z.of_nat index * step);
     end_ := Some (Z.of_nat index * step + span);
     score := score feature;
     minScore := minScore feature; maxScore := maxScore feature;
     summary := summary feature; chromId := chromId feature;
     rest := rest feature; uniqueId := uniqueId feature |}.

(** [{ ...feature, end: feature.start + span }] *)
Definition vstepFeature (span : Z) (feature : Feature) : Feature :=
  {| start := start feature;
     end_ := (fun s => s + span) <$> start feature;
     score := score feature;
     minScore := minScore feature; maxScore := maxScore feature;
     summary := summary feature; chromId := chromId feature;
     rest := rest feature; uniqueId := uniqueId feature |}.

Definition parseBigWigBlock (bytes : Buffer.t) (startOffset : Z)
    (request : option CoordRequest) : result (list Feature) :=
  let data := Buffer.slice bytes startOffset in
  let? ((results, items), _) :=
    Parser.parse (bigWigParser isBigEndian) data in
  let items :=
    if blockType results =? BIG_WIG_TYPE_FSTEP then
      imap (fstepFeature (itemStep results) (itemSpan results)) items
    else if blockType results =? BIG_WIG_TYPE_VSTEP then
      List.map (vstepFeature (itemSpan results)) items
    else items in
  Ok (filterRequest request items).

End Decoders.

(** *** The query: [readWigData] and [readFeatures]

    What the outside sees of a query is a trace of events.  The
    asynchronous calls are run by a scheduler that resumes the pending
    fetches of index nodes in the order they were issued; the file never
    changes, so [featureCache.get] returns what [bbi.read] finds.  No abort
    signal is raised. *)

Inductive event : Type :=
| next (features : list Feature)   (* observer.next *)
| complete                         (* observer.complete *)
| error (e : exception)            (* observer.error; the code never calls it *)
| bbi_read (length offset : Z)     (* bbi.read(buffer, 0, length, offset) *)
| cache_get (length offset : Z)    (* featureCache.get(length_offset,
                                      { length, offset }) *)
| warn (blockType : string)        (* console.warn *)
| rejected (e : exception).        (* an exception that ends an async call *)

Record t : Type := mkView {
  bbi : Buffer.t;                    (* the bytes of the file *)
  refsByName : gmap string Z;
  cirTreeOffset : Z;
  isBigEndian : bool;
  isCompressed : bool;
  blockType : string
}.

(** [bbi.read(buffer, 0, length, offset)] into a buffer of [length] zero
    bytes: the bytes past the end of the file stay zero.  The file refuses
    a negative position. *)
Definition readAt (file : Buffer.t) (length offset : Z) : result Buffer.t :=
  if offset <? 0 then Throw RangeError
  else
    let n := Z.to_nat length in
    Ok (take n (drop (Z.to_nat offset) file ++ replicate n Byte.x00)).

(** The [fill] of [featureCache], on the [requestData] that
    [featureCache.get] hands it: [Buffer.alloc(length)], then the read.
    [Buffer.alloc] throws a TypeError when [length] is [undefined], and a
    RangeError when it is negative. *)
Definition fill (file : Buffer.t) (length : option Z) (offset : Z)
    : result Buffer.t :=
  match length with
  | None => Throw TypeError
  | Some length =>
      if length <? 0 then Throw RangeError else readAt file length offset
  end.

(** A fetch of index nodes that waits for its read:
    [cirFobStartFetch(off, fr, level)] at its [await]. *)
Record fetch : Type := mkFetch {
  f_off : list Z;
  f_fr : Range.t;
  f_level : Z;
  f_length : Z;
  f_offset : Z
}.

(** The variables a query's closures share, the fetches in flight and the
    trace so far. *)
Record query : Type := mkQuery {
  blocksToFetch : list Descriptor.t;
  outstanding : Z;
  pending : list fetch;
  trace : list event
}.

Definition emit (q : query) (evs : list event) : query :=
  mkQuery (blocksToFetch q) (outstanding q) (pending q) (trace q ++ evs).

Section Query.
(** [zlib.inflateSync] *)
Variable inflateSync : Buffer.t -> result Buffer.t.
Variable self : t.
Variable request : CoordRequest.

(** A group as [groupBlocks] makes it of descriptors: [blocks], [size] and
    [offset]. *)
Definition blockGroup : Type := Util.Loose.group Descriptor.t.

(** The body of [blockGroup.blocks.forEach] for one block. *)
Definition decodeBlock (data : Buffer.t) (group : blockGroup)
    (block : Descriptor.t) : result event :=
  let offset :=
    Number.round (Descriptor.offset block - Util.Loose.offset group) in
  let? resultData :=
    if isCompressed self then inflateSync (Buffer.slice data offset)
    else Ok data in
  let offset := if isCompressed self then 0 else offset in
  if String.eqb (blockType self) "summary" then
    let? fs := parseSummaryBlock (isBigEndian self) resultData offset
                 (Some request) in
    Ok (next fs)
  else if String.eqb (blockType self) "bigwig" then
    let? fs := parseBigWigBlock (isBigEndian self) resultData offset
                 (Some request) in
    Ok (next fs)
  else if String.eqb (blockType self) "bigbed" then
    let? fs := parseBigBedBlock (isBigEndian self) resultData offset
                 (Some request) in
    Ok (next fs)
  else Ok (warn (blockType self)).

(** [forEach] stops at the first exception. *)
Fixpoint forEachBlock (data : Buffer.t) (group : blockGroup)
    (blocks : list Descriptor.t) : list event * option exception :=
  match blocks with
  | [] => ([], None)
  | block :: blocks' =>
      match decodeBlock data group block with
      | Ok ev =>
          let (evs, e) := forEachBlock data group blocks' in
          (ev :: evs, e)
      | Throw e => ([], Some e)
      end
  end.

(** The callback of [blockGroupsToFetch.map]:

    const { length, offset } = blockGroup
    const data = await this.featureCache.get(length + '_' + offset,
                                             blockGroup, signal)

    A group has [blocks], [size] and [offset]: its [length] is [undefined],
    and so is the [length] that [fill] finds in it. *)
Definition decodeGroup (group : blockGroup) : list event * option exception :=
  let length : option Z := None in
  let offset := Util.Loose.offset group in
  match fill (bbi self) length offset with
  | Ok data => forEachBlock data group (Util.Loose.blocks group)
  | Throw e => ([], Some e)
  end.

(** [Promise.all]: every callback runs; the first exception, if any,
    rejects the whole. *)
Fixpoint allGroups (groups : list blockGroup) : list event * option exception :=
  match groups with
  | [] => ([], None)
  | g :: groups' =>
      let (evs, e) := decodeGroup g in
      let (evs', e') := allGroups groups' in
      (evs ++ evs', match e with Some _ => e | None => e' end)
  end.

(** [readFeatures(observer, blocks, { ...opts, request })]: the events
    of the call, and [blocks] as [groupBlocks] leaves it.  The descriptors
    have an [offset] and no [size]. *)
Definition readFeatures (blocks : list Descriptor.t)
    : list event * list Descriptor.t :=
  let (blockGroupsToFetch, blocks) :=
    Util.Loose.groupBlocks Descriptor.offset (fun _ => None) blocks in
  let (evs, e) := allGroups blockGroupsToFetch in
  (evs ++ match e with
          | None => [complete]
          | Some e => [rejected e]
          end, blocks).

(** [filterFeats]; [chrId] is [undefined] for an unknown name, and every
    comparison with it is false. *)
Definition filterFeats (b : CirEntry) : bool :=
  match chrId request with
  | Some chrId =>
      ((startChrom b <? chrId)
       || ((startChrom b =? chrId) && (startBase b <=? req_end request)))
      && ((endChrom b >? chrId)
          || ((endChrom b =? chrId) && (endBase b >=? req_start request)))
  | None => false
  end.

Variable cirBlockSize : Z.

(** [cirFobStartFetch] up to its [await]: the read is requested and the
    call joins the fetches in flight. *)
Definition cirFobStartFetch (off : list Z) (fr : Range.t) (level : Z)
    (q : query) : query :=
  match (let? max := Range.max fr in
         let? min := Range.min fr in
         Ok (Number.round (max - min), min)) with
  | Ok (length, offset) =>
      mkQuery (blocksToFetch q) (outstanding q)
              (pending q ++ [mkFetch off fr level length offset])
              (trace q ++ [cache_get length offset])
  | Throw e => emit q [rejected e]
  end.

(** The loop of [cirFobRecur] over [offset[i] = oi], from [i = 1] on. *)
Fixpoint unionSpans (maxCirBlockSpan : Z) (spans : Range.t) (os : list Z)
    : result Range.t :=
  match os with
  | [] => Ok spans
  | oi :: os' =>
      let blockSpan := Range.new oi (Number.round (oi + maxCirBlockSpan)) in
      let? spans := Range.union spans blockSpan in
      unionSpans maxCirBlockSpan spans os'
  end.

(** [cirFobRecur(offset, level)]; [offset] is never empty, [o] is its
    first member and [os] the others.  An exception leaves the variables as
    they are when it is thrown. *)
Definition cirFobRecur (o : Z) (os : list Z) (level : Z) (q : query)
    : query * option exception :=
  let offset := o :: os in
  let q := mkQuery (blocksToFetch q)
                   (outstanding q + Z.of_nat (length offset))
                   (pending q) (trace q) in
  let maxCirBlockSpan := 4 + cirBlockSize * 32 in
  match (let? spans :=
           unionSpans maxCirBlockSpan
             (Range.new o (Number.round (o + maxCirBlockSpan))) os in
         Range.getRanges spans) with
  | Ok frs =>
      (fold_left (fun q fr => cirFobStartFetch offset fr level q) frs q, None)
  | Throw e => (q, Some e)
  end.

(** [{ offset: l.blockOffset, length: l.blockSize }], of a leaf entry. *)
Definition descriptor (l : CirEntry) : Descriptor.t :=
  Descriptor.mk (blockOffset l) (blockSize l).

(** [cirFobRecur2(cirBlockData, offset, level)] *)
Definition cirFobRecur2 (cirBlockData : Buffer.t) (offset level : Z)
    (q : query) : query * option exception :=
  let data := Buffer.slice cirBlockData offset in
  match Parser.parse (leafParser (isBigEndian self)) data with
  | Throw e => (q, Some e)
  | Ok (CirNode.blocksToFetch entries, _) =>
      (mkQuery
         (blocksToFetch q
          ++ List.map descriptor (List.filter filterFeats entries))
         (outstanding q) (pending q) (trace q), None)
  | Ok (CirNode.recurOffsets entries, _) =>
      match List.map blockOffset (List.filter filterFeats entries) with
      | [] => (q, None)
      | o :: os => cirFobRecur o os (level + 1) q
      end
  end.

(** The [for] loop of [cirFobStartFetch], over [off[i] = o]. *)
Fixpoint visitOffsets (f : fetch) (resultBuffer : Buffer.t) (off : list Z)
    (q : query) : query * option exception :=
  match off with
  | [] => (q, None)
  | o :: off' =>
      if Range.contains (f_fr f) o then
        match cirFobRecur2 resultBuffer (Number.round (o - f_offset f))
                           (f_level f) q with
        | (q, Some e) => (q, Some e)
        | (q, None) =>
            let q := mkQuery (blocksToFetch q) (outstanding q - 1)
                             (pending q) (trace q) in
            let q :=
              if outstanding q =? 0 then
                let (evs, blocks) := readFeatures (blocksToFetch q) in
                mkQuery blocks (outstanding q) (pending q) (trace q ++ evs)
              else q in
            visitOffsets f resultBuffer off' q
        end
      else visitOffsets f resultBuffer off' q
  end.

(** [cirFobStartFetch] from its [await] on. *)
Definition resume (f : fetch) (q : query) : query :=
  match fill (bbi self) (Some (f_length f)) (f_offset f) with
  | Throw e => emit q [rejected e]
  | Ok resultBuffer =>
      match visitOffsets f resultBuffer (f_off f) q with
      | (q, Some e) => emit q [rejected e]
      | (q, None) =>
          if outstanding q =? 0 then q else emit q [rejected DidNotComplete]
      end
  end.

(** The scheduler: [n] fetches are resumed, oldest first. *)
Fixpoint run (n : nat) (q : query) : query :=
  match n with
  | O => q
  | S n' =>
      match pending q with
      | [] => q
      | f :: fs =>
          run n' (resume f (mkQuery (blocksToFetch q) (outstanding q)
                                    fs (trace q)))
      end
  end.

End Query.

(** [readWigData(chrName, start, end, observer, opts)] on a fresh view,
    with [n] turns of the scheduler. *)
Definition readWigData (inflateSync : Buffer.t -> result Buffer.t)
    (self : t) (chrName : string) (start end_ : Z) (n : nat) : query :=
  let chrId := refsByName self !! chrName in
  let early := match chrId with None => [complete] | Some _ => [] end in
  let request := mkRequest chrId start end_ in
  match readAt (bbi self) 48 (cirTreeOffset self) with
  | Throw e => mkQuery [] 0 [] (early ++ [rejected e])
  | Ok buffer =>
      let cirBlockSize :=
        Buffer.value (isBigEndian self) (take 4 (drop 4 buffer)) in
      let q := mkQuery [] 0 []
                 (early ++ [bbi_read 48 (cirTreeOffset self)]) in
      match cirFobRecur cirBlockSize
              (Number.round (cirTreeOffset self + 48)) [] 1 q with
      | (q, None) => run inflateSync self request cirBlockSize n q
      | (q, Some e) => emit q [rejected e]
      end
  end.

End BlockView.

(** ** requestWorker.ts: decoding a bigWig block

    The worker that [blockView.ts] replaces builds the same parser for a
    bigWig block, and makes other features of its items. *)

Module RequestWorker.
Section Worker.
(** [this.opts.isBigEndian], [this.min] and [this.max] *)
Variable isBigEndian : bool.
Variables min max : Z.

(** [f.start < this.max && f.end >= this.min] *)
Definition coordFilter (f : Feature) : bool :=
  match start f, end_ f with
  | Some s, Some e => (s <? max) && (e >=? min)
  | _, _ => false
  end.

(** [{ ...s, start: i * step, end: i * step + step }] *)
Definition fstepFeature (step : Z) (i : nat) (s : Feature) : Feature :=
  {| start := Some (Z.of_nat i * step);
     end_ := Some (Z.of_nat i * step + step);
     score := score s;
     minScore := minScore s; maxScore := maxScore s;
     summary := summary s; chromId := chromId s;
     rest := rest s; uniqueId := uniqueId s |}.

(** [items[i].end = ...] *)
Definition setEnd (item : Feature) (e : option Z) : Feature :=
  {| start := start item; end_ := e; score := score item;
     minScore := minScore item; maxScore := maxScore item;
     summary := summary item; chromId := chromId item;
     rest := rest item; uniqueId := uniqueId item |}.

(** The loop over a variable-step block,

    for (let i = 0; i < items.length - 1; i += 1) {
      items[i].end = items[i + 1].start - 1
    }

    which leaves the last item as it is. *)
Fixpoint vstepEnds (items : list Feature) : list Feature :=
  match items with
  | item :: (nxt :: _) as items' =>
      setEnd item ((fun s => s - 1) <$> start nxt) :: vstepEnds items'
  | _ => items
  end.

Definition parseBigWigBlock (bytes : Buffer.t) (startOffset : Z)
    : result (list Feature) :=
  let data := Buffer.slice bytes startOffset in
  let? ((results, items), _) :=
    Parser.parse (bigWigParser isBigEndian) data in
  let items :=
    if blockType results =? BIG_WIG_TYPE_FSTEP then
      imap (fstepFeature (itemStep results)) items
    else if blockType results =? BIG_WIG_TYPE_VSTEP then vstepEnds items
    else items in
  Ok (List.filter coordFilter items).

End Worker.
End RequestWorker.

(** ** What the observer sees *)

Module Observer.

(** A terminal callback: [complete] or [error]. *)
Definition terminal (ev : BlockView.event) : bool :=
  match ev with
  | BlockView.complete | BlockView.error _ => true
  | _ => false
  end.

Definition terminals (trace : list BlockView.event) : nat :=
  length (List.filter terminal trace).


(** A request for an index node or for a group of data blocks. *)
Definition fetches (ev : BlockView.event) : bool :=
  match ev with
  | BlockView.cache_get _ _ => true
  | _ => false
  end.


End Observer.

(** ** The coalescer of the specification

    Section 4.4 of the specification, in its words: the sorted blocks are
    walked in order with a [current] group; a block that starts at most
    [threshold] bytes after the end of a non-empty [current] extends it,
    any other block makes [current] be emitted and starts a new group; the
    final group is emitted at the end. *)

Module Coalescer.

Definition startAt (next : Block.t) : Group.t :=
  Group.mk [next] (Block.size next) (Block.offset next).

Definition extend (current : Group.t) (next : Block.t) : Group.t :=
  Group.mk (Group.blocks current ++ [next])
           (Block.offset next + Block.size next - Group.offset current)
           (Group.offset current).

Fixpoint walk (threshold : Z) (current : option Group.t)
    (sorted : list Block.t) : list Group.t :=
  match sorted with
  | [] => match current with Some g => [g] | None => [] end
  | next :: sorted' =>
      match current with
      | Some g =>
          if Block.offset next - (Group.offset g + Group.size g) <=? threshold
          then walk threshold (Some (extend g next)) sorted'
          else g :: walk threshold (Some (startAt next)) sorted'
      | None => walk threshold (Some (startAt next)) sorted'
      end
  end.

Definition group (threshold : Z) (sorted : list Block.t) : list Group.t :=
  walk threshold None sorted.

End Coalescer.

(** ** The summary records of the specification

    Section 3 of the specification, in its words: a summary record is 32
    bytes, the [u32]s [chromId], [start], [end] and [validCnt] and the
    [f32]s [minScore], [maxScore], [sumData] and [sumSqData], in the byte
    order of the file; it projects to a feature with
    [score = sumData / max(validCnt, 1)] and [summary = true], that carries
    the record's [start], [end], [minScore] and [maxScore]. *)

Module SummaryRecord.

Definition u32 (isBigEndian : bool) (rec : Buffer.t) (at_ : nat) : Z :=
  Buffer.value isBigEndian (take 4 (drop at_ rec)).

Definition f32 (isBigEndian : bool) (rec : Buffer.t) (at_ : nat) : float :=
  Buffer.float_of_bits32 (u32 isBigEndian rec at_).

Definition read (isBigEndian : bool) (rec : Buffer.t) : SummaryBlock :=
  {| s_chromId := u32 isBigEndian rec 0;
     s_start := u32 isBigEndian rec 4;
     s_end := u32 isBigEndian rec 8;
     s_validCnt := u32 isBigEndian rec 12;
     s_minScore := f32 isBigEndian rec 16;
     s_maxScore := f32 isBigEndian rec 20;
     s_sumData := f32 isBigEndian rec 24;
     s_sumSqData := f32 isBigEndian rec 28 |}.

(** The records of the chromosome of the request, if there is one. *)
Definition ofChrom (request : option CoordRequest) (elt : SummaryBlock)
    : bool :=
  match request with
  | Some r =>
      match chrId r with
      | Some c => s_chromId elt =? c
      | None => false
      end
  | None => true
  end.

(** The features that meet the request, if there is one:
    [f.start < req.end] and [f.end >= req.start]. *)
Definition inRequest (request : option CoordRequest) (f : Feature) : bool :=
  match request with
  | Some r =>
      match start f, end_ f with
      | Some s, Some e => (s <? req_end r) && (e >=? req_start r)
      | _, _ => false
      end
  | None => true
  end.

Definition project (elt : SummaryBlock) : Feature :=
  {| start := Some (s_start elt);
     end_ := Some (s_end elt);
     score := Some (s_sumData elt
                    / of_uint63 (Uint63Axioms.of_Z (Z.max (s_validCnt elt) 1)))%float;
     minScore := Some (s_minScore elt);
     maxScore := Some (s_maxScore elt);
     summary := true;
     chromId := None; rest := None; uniqueId := None |}.

End SummaryRecord.

(** ** Sample data: little-endian blocks and a small file *)

Module Sample.

Definition u16 : Z -> Buffer.t := Buffer.bytes false 2.
Definition u32 : Z -> Buffer.t := Buffer.bytes false 4.
Definition u64 : Z -> Buffer.t := Buffer.bytes false 8.

(** The summary record of scenario S4: chromId 5, [100, 200), validCnt 10,
    minScore -1, maxScore 3, sumData 20, sumSqData 50. *)
Definition summaryRecord : Buffer.t :=
  u32 5 ++ u32 100 ++ u32 200 ++ u32 10
  ++ u32 0xBF800000 ++ u32 0x40400000 ++ u32 0x41A00000 ++ u32 0x42480000.

(** The 24-byte header of a bigWig block. *)
Definition wigHeader (chromId blockStart blockEnd itemStep itemSpan
    blockType itemCount : Z) : Buffer.t :=
  u32 chromId ++ u32 blockStart ++ u32 blockEnd ++ u32 itemStep
  ++ u32 itemSpan ++ [Buffer.byte_of_Z blockType; Byte.x00] ++ u16 itemCount.

(** The fixed-step block of scenario S5: blockStart 0, itemStep 10,
    itemSpan 5, items 0.1, 0.2, 0.3. *)
Definition fstepBlock : Buffer.t :=
  wigHeader 0 0 30 10 5 3 3 ++ u32 0x3DCCCCCD ++ u32 0x3E4CCCCD ++ u32 0x3E99999A.

(** A fixed-step block that starts at base 100. *)
Definition fstepBlock100 : Buffer.t :=
  wigHeader 0 100 120 10 5 3 2 ++ u32 0x3DCCCCCD ++ u32 0x3E4CCCCD.

(** A block whose header carries the unassigned type 7. *)
Definition unknownBlock : Buffer.t := wigHeader 0 0 30 10 5 7 0.

(** A file: the 48-byte header of the CIR tree ([cirBlockSize] 1), a root
    leaf with one entry for chromosome 0, bases 0 to 1000, and the data block
    [block] it points to, at offset 84. *)
Definition fileWith (block : Buffer.t) : Buffer.t :=
  (u32 0 ++ u32 1 ++ replicate 40 Byte.x00)
  ++ ([Byte.x01; Byte.x00] ++ u16 1
      ++ u32 0 ++ u32 0 ++ u32 0 ++ u32 1000
      ++ u64 84 ++ u64 (Z.of_nat (length block)))
  ++ block.

Definition viewOf (blockType : string) (block : Buffer.t)
    (refs : gmap string Z) : BlockView.t :=
  BlockView.mkView (fileWith block) refs 0 false false blockType.

Definition view : Buffer.t -> gmap string Z -> BlockView.t := viewOf "bigwig".

(** A bigBed block of two records, [5, 9) with rest "A" and [50, 90) with
    an empty rest, on chromosome 0. *)
Definition bedBlock : Buffer.t :=
  u32 0 ++ u32 5 ++ u32 9 ++ [Byte.x41; Byte.x00]
  ++ u32 0 ++ u32 50 ++ u32 90 ++ [Byte.x00].

Definition noInflate : Buffer.t -> result Buffer.t :=
  fun _ => Throw InflateError.

(** A file with an index of two levels ([cirBlockSize] 2): the root, at
    offset 48, is an inner node with one entry for the leaf at offset 76,
    whose one entry points to the data block [block] at offset 112. *)
Definition twoLevelFile (block : Buffer.t) : Buffer.t :=
  (u32 0 ++ u32 2 ++ replicate 40 Byte.x00)
  ++ ([Byte.x00; Byte.x00] ++ u16 1
      ++ u32 0 ++ u32 0 ++ u32 0 ++ u32 1000 ++ u64 76)
  ++ ([Byte.x01; Byte.x00] ++ u16 1
      ++ u32 0 ++ u32 0 ++ u32 0 ++ u32 1000
      ++ u64 112 ++ u64 (Z.of_nat (length block)))
  ++ block.

(** A file whose root is an inner node with two entries, for the nodes at
    offsets 100 and 200 ([cirBlockSize] 2): chromosome 0, bases 0 to 1000
    and 1000 to 2000. *)
Definition wideFile : Buffer.t :=
  (u32 0 ++ u32 2 ++ replicate 40 Byte.x00)
  ++ ([Byte.x00; Byte.x00] ++ u16 2
      ++ u32 0 ++ u32 0 ++ u32 0 ++ u32 1000 ++ u64 100
      ++ u32 0 ++ u32 1000 ++ u32 0 ++ u32 2000 ++ u64 200).

End Sample.

(** ** The layout of the records of a bigBed block *)

Module Layout.

(** A bigBed record: 12 bytes for [chromId], [start] and [end], the bytes
    of [rest], and the zero byte that ends them. *)
Definition bedRecord (rec : Buffer.t * list byte) : Buffer.t :=
  rec.1 ++ rec.2 ++ [Byte.x00].

Definition bedFeature (isBigEndian : bool) (rec : Buffer.t * list byte)
    (id : Z) : Feature :=
  {| chromId := Some (Buffer.value isBigEndian (take 4 rec.1));
     start := Some (Buffer.to_int32
                      (Buffer.value isBigEndian (take 4 (drop 4 rec.1))));
     end_ := Some (Buffer.to_int32 (Buffer.value isBigEndian (drop 8 rec.1)));
     rest := Some rec.2;
     uniqueId := Some ("bb-" +:+ pretty id);
     score := None; minScore := None; maxScore := None; summary := false |}.

(** The features of consecutive records, the first of which is numbered
    [id]; each record is numbered by the bytes before it. *)
Fixpoint bedFeatures (isBigEndian : bool) (id : Z)
    (recs : list (Buffer.t * list byte)) : list Feature :=
  match recs with
  | [] => []
  | rec :: recs' =>
      bedFeature isBigEndian rec id
      :: bedFeatures isBigEndian (id + Z.of_nat (length (bedRecord rec))) recs'
  end.

Definition wellFormed (rec : Buffer.t * list byte) : Prop :=
  length rec.1 = 12%nat /\ Byte.x00 ∉ rec.2.

(** The features [fs] carry the identifiers of the offsets [offs]. *)
Definition numbered (startOffset : Z) (offs : list Z) (fs : list Feature)
    : Prop :=
  Forall2 (fun o f => uniqueId f = Some ("bb-" +:+ pretty (startOffset + o)))
          offs fs.

(** A feature as [bigBedParser] builds it. *)
Definition bedShaped (f : Feature) : Prop :=
  (exists c s e, chromId f = Some c /\ start f = Some s /\ end_ f = Some e
                 /\ 0 <= c < 2 ^ 32
                 /\ - 2 ^ 31 <= s < 2 ^ 31 /\ - 2 ^ 31 <= e < 2 ^ 31)
  /\ (exists r, rest f = Some r /\ Byte.x00 ∉ r)
  /\ score f = None.

End Layout.

(** ** The groups of [groupBlocks] *)

Module Grouping.

Definition blockEnd (b : Block.t) : Z := Block.offset b + Block.size b.

(** A group reaches from the start of its first block to the end of its
    last block. *)
Definition spans (g : Group.t) : Prop :=
  exists first final,
    head (Group.blocks g) = Some first /\ last (Group.blocks g) = Some final
    /\ Group.offset g = Block.offset first
    /\ Group.offset g + Group.size g = blockEnd final.




End Grouping.

(** ** The count of outstanding offsets *)

Module Accounting.

(** The offsets that a fetch will visit: those its range contains. *)
Definition hits (f : BlockView.fetch) : nat :=
  length (List.filter (Range.contains (BlockView.f_fr f)) (BlockView.f_off f)).

Definition awaited (fs : list BlockView.fetch) : nat := sum_list_with hits fs.

End Accounting.

(** ** The protocol of the observer *)

Module Protocol.

(** The callbacks of the observer. *)
Definition callback (ev : BlockView.event) : bool :=
  match ev with
  | BlockView.next _ | BlockView.complete | BlockView.error _ => true
  | _ => false
  end.

Definition callbacks (trace : list BlockView.event) : list BlockView.event :=
  List.filter callback trace.

(** While the index is walked: the observer has seen the [early] callbacks
    only, and [outstanding] is at least the count of the offsets still to
    visit, [more] of them in the loop under way. *)
Definition walking (early : list BlockView.event) (more : nat)
    (q : BlockView.query) : Prop :=
  callbacks (BlockView.trace q) = early
  /\ Z.of_nat (Accounting.awaited (BlockView.pending q) + more)
     <= BlockView.outstanding q.

(** Once [outstanding] has reached zero: [readFeatures] has run, and no
    fetch in flight has an offset to visit.  The observer has seen the
    [early] callbacks and then [complete], when no block had been
    collected; when one had, [readFeatures] has ended with a TypeError. *)
Definition settled (early : list BlockView.event) (q : BlockView.query)
    : Prop :=
  Accounting.awaited (BlockView.pending q) = 0%nat
  /\ BlockView.outstanding q = 0
  /\ ((BlockView.blocksToFetch q = []
       /\ callbacks (BlockView.trace q) = early ++ [BlockView.complete])
      \/ (BlockView.blocksToFetch q <> []
          /\ callbacks (BlockView.trace q) = early
          /\ In (BlockView.rejected TypeError) (BlockView.trace q))).

End Protocol.

(** ** The keys of the index *)

Module Index.

(** The keys of the index are pairs of a chromosome and a base, in
    lexicographic order. *)
Definition before (chrom1 base1 chrom2 base2 : Z) : Prop :=
  chrom1 < chrom2 \/ (chrom1 = chrom2 /\ base1 <= base2).

(** The position [(chrom, pos)] lies in the interval of the entry. *)
Definition spans (b : CirEntry) (chrom pos : Z) : Prop :=
  before (startChrom b) (startBase b) chrom pos
  /\ before chrom pos (endChrom b) (endBase b).

End Index.

(** ** The growth of the trace *)

Module TraceFacts.
Import BlockView.

(** The trace only grows. *)
Definition grows (q q' : query) : Prop :=
  exists evs, trace q' = trace q ++ evs.

End TraceFacts.

(** ** What a parser reads *)

Module Reads.

(** [yields n p P]: [p] reads exactly [n] bytes, whatever follows them,
    and returns a value in [P]; on a buffer of fewer than [n] bytes it
    throws a [RangeError]. *)
Definition yields {A} (n : nat) (p : Parser.t A) (P : A -> Prop) : Prop :=
  (forall bs : Buffer.t, length bs = n ->
     exists a, P a /\ forall more, p (bs ++ more) = Ok (a, more))
  /\ (forall buf : Buffer.t, (length buf < n)%nat -> p buf = Throw RangeError).

(** A parser makes progress when a successful run consumes a byte. *)
Definition progress {A} (p : Parser.t A) : Prop :=
  forall buf a rest, p buf = Ok (a, rest) -> (length rest < length buf)%nat.

End Reads.

(** ** Descriptors with a size

    The groups and the variables of the loop of [groupBlocks], as they read
    when every descriptor has a [size]. *)

Module Sized.
Import Util.Loose.

Definition sized (g : Group.t) : group Block.t :=
  mkGroup (Group.blocks g) (Some (Group.size g)) (Group.offset g).

Definition alike (v : Util.vars) (v' : @vars Block.t) : Prop :=
  blockGroups v' = sized <$> Util.blockGroups v
  /\ lastBlock v' = Util.lastBlock v
  /\ (Util.lastBlock v <> None -> lastBlockEnd v' = Some (Util.lastBlockEnd v)).

End Sized.

(** * Properties *)

(** ** The parsers *)

Module ParserFacts.
Import Reads.

Lemma yields_ret {A} (a : A) (P : A -> Prop) :
  P a -> yields 0 (Parser.ret a) P.
Proof.
  intros Ha. split; [|intros; lia].
  intros bs Hbs. apply nil_length_inv in Hbs as ->. by exists a.
Qed.

Lemma yields_bind {A B} n m (p : Parser.t A) (k : A -> Parser.t B)
    (P : A -> Prop) (Q : B -> Prop) :
  yields n p P -> (forall a, P a -> yields m (k a) Q) ->
  yields (n + m) (Parser.bind p k) Q.
Proof.
  intros [Hp Hshort] Hk. unfold Parser.bind. split.
  - intros bs Hlen.
    destruct (Hp (take n bs)) as (a & Ha & Hrun); [rewrite length_take; lia|].
    destruct (Hk a Ha) as [Hka _].
    destruct (Hka (drop n bs)) as (b & Hb & Hrun');
      [rewrite length_drop; lia|].
    exists b. split; [done|]. intros more.
    rewrite <- (take_drop n bs) at 1. rewrite <- app_assoc, Hrun. apply Hrun'.
  - intros buf Hlen. destruct (decide (length buf < n)%nat) as [Hlt|Hge].
    + by rewrite Hshort.
    + destruct (Hp (take n buf)) as (a & Ha & Hrun);
        [rewrite length_take; lia|].
      rewrite <- (take_drop n buf) at 1. rewrite Hrun.
      destruct (Hk a Ha) as [_ Hshort']. apply Hshort'.
      rewrite length_drop. lia.
Qed.

(** [skip] never throws by itself; the read that follows does. *)
Lemma yields_skip {B} n m (k : Parser.t B) (Q : B -> Prop) :
  (0 < m)%nat -> yields m k Q ->
  yields (n + m) (Parser.bind (Parser.skip n) (fun _ => k)) Q.
Proof.
  intros Hm [Hk Hshort]. unfold Parser.bind, Parser.skip. split.
  - intros bs Hlen.
    destruct (Hk (drop n bs)) as (b & Hb & Hrun); [rewrite length_drop; lia|].
    exists b. split; [done|]. intros more.
    rewrite drop_app_le by lia. apply Hrun.
  - intros buf Hlen. apply Hshort. rewrite length_drop. lia.
Qed.

Lemma byte_val_range b : 0 <= Buffer.byte_val b < 256.
Proof.
  unfold Buffer.byte_val. pose proof (Byte.to_N_bounded b). lia.
Qed.

Lemma le_value_range bs :
  0 <= Buffer.le_value bs < 256 ^ Z.of_nat (length bs).
Proof.
  induction bs as [|b bs IH]; simpl length; [simpl; lia|].
  rewrite Nat2Z.inj_succ, Z.pow_succ_r by lia.
  change (Buffer.le_value (b :: bs))
    with (Buffer.byte_val b + 256 * Buffer.le_value bs).
  pose proof (byte_val_range b). lia.
Qed.

Lemma value_range be bs :
  0 <= Buffer.value be bs < 256 ^ Z.of_nat (length bs).
Proof.
  unfold Buffer.value. destruct be; [|apply le_value_range].
  rewrite <- (length_rev bs). apply le_value_range.
Qed.

Lemma yields_read n :
  yields n (Parser.read n) (fun bs => length bs = n).
Proof.
  unfold Parser.read. split.
  - intros bs Hlen. exists bs. split; [done|]. intros more.
    rewrite length_app.
    destruct (Nat.leb_spec n (length bs + length more)); [|lia].
    by rewrite take_app_length', drop_app_length'.
  - intros buf Hlen. destruct (Nat.leb_spec n (length buf)); [lia|done].
Qed.

Lemma yields_uint n be :
  yields n (Parser.uint n be) (fun v => 0 <= v < 256 ^ Z.of_nat n).
Proof.
  unfold Parser.uint. rewrite <- (Nat.add_0_r n) at 1.
  eapply yields_bind; [apply yields_read|].
  intros bs <-. apply yields_ret, value_range.
Qed.

Lemma yields_uint32 be :
  yields 4 (Parser.uint32 be) (fun v => 0 <= v < 2 ^ 32).
Proof. apply (yields_uint 4). Qed.

Lemma yields_int32 be :
  yields 4 (Parser.int32 be) (fun v => - 2 ^ 31 <= v < 2 ^ 31).
Proof.
  unfold Parser.int32. change 4%nat with (4 + 0)%nat.
  eapply yields_bind; [apply yields_uint32|].
  intros w Hw. apply yields_ret. cbv beta in Hw. unfold Buffer.to_int32.
  destruct (Z.ltb_spec w (2 ^ 31)); lia.
Qed.

Lemma yields_float be :
  yields 4 (Parser.float be) (fun _ => True).
Proof.
  unfold Parser.float. change 4%nat with (4 + 0)%nat.
  eapply yields_bind; [apply yields_uint32|].
  intros w Hw. by apply yields_ret.
Qed.

(** A summary record is 32 bytes, and its [validCnt] is a [uint32]. *)
Lemma yields_summaryParser be :
  yields 32 (summaryParser be) (fun elt => 0 <= s_validCnt elt < 2 ^ 32).
Proof.
  unfold summaryParser.
  change 32%nat with (4 + (4 + (4 + (4 + (4 + (4 + (4 + (4 + 0))))))))%nat.
  eapply yields_bind; [apply yields_uint32|intros chromId _].
  eapply yields_bind; [apply yields_uint32|intros start _].
  eapply yields_bind; [apply yields_uint32|intros end_ _].
  eapply yields_bind; [apply yields_uint32|intros validCnt Hcnt].
  eapply yields_bind; [apply yields_float|intros minScore _].
  eapply yields_bind; [apply yields_float|intros maxScore _].
  eapply yields_bind; [apply yields_float|intros sumData _].
  eapply yields_bind; [apply yields_float|intros sumSqData _].
  by apply yields_ret.
Qed.

Lemma yields_progress {A} n (p : Parser.t A) P :
  (0 < n)%nat -> yields n p P -> progress p.
Proof.
  intros Hn [Hp Hshort] buf a rest Hrun.
  destruct (decide (length buf < n)%nat) as [Hlt|Hge].
  - rewrite Hshort in Hrun by done. discriminate.
  - destruct (Hp (take n buf)) as (a' & _ & Hrun');
      [rewrite length_take; lia|].
    rewrite <- (take_drop n buf) in Hrun at 1. rewrite Hrun' in Hrun.
    injection Hrun as _ <-. rewrite length_drop. lia.
Qed.

End ParserFacts.

(** ** The block decoders *)

Module DecoderFacts.
Import Reads ParserFacts BlockView.

Lemma slice_app_length (pre x : Buffer.t) :
  Buffer.slice (pre ++ x) (Z.of_nat (length pre)) = x.
Proof.
  unfold Buffer.slice, Buffer.byteLength.
  destruct (Z.ltb_spec (Z.of_nat (length pre)) 0); [lia|].
  rewrite length_app, Z.min_l, Nat2Z.id by lia.
  apply drop_app_length.
Qed.

Lemma slice_0 (buf : Buffer.t) : Buffer.slice buf 0 = buf.
Proof. apply (slice_app_length [] buf). Qed.

Lemma parse_yields {A} n (p : Parser.t A) P (bs more : Buffer.t) :
  yields n p P -> length bs = n ->
  exists a, P a
    /\ Parser.parse p (bs ++ more) = Ok (a, Z.of_nat n)
    /\ Parser.parse p bs = Ok (a, Z.of_nat n).
Proof.
  intros [Hp _] Hlen. destruct (Hp bs Hlen) as (a & Ha & Hrun).
  exists a. split; [done|]. unfold Parser.parse, Buffer.byteLength. split.
  - rewrite Hrun, length_app. f_equal. f_equal. lia.
  - specialize (Hrun []). rewrite app_nil_r in Hrun. rewrite Hrun.
    f_equal. f_equal. simpl. lia.
Qed.

Section Records.
Context {A : Type} (parser : Parser.t A) (visit : Z -> A -> A).
Hypothesis parser_progress : progress parser.

Lemma parse_offset_pos buf a offset :
  Parser.parse parser buf = Ok (a, offset) -> 0 < offset.
Proof.
  unfold Parser.parse. destruct (parser buf) as [[a' rest]|e] eqn:Hrun;
    [|discriminate].
  intros [= _ <-]. apply parser_progress in Hrun.
  unfold Buffer.byteLength. lia.
Qed.

(** The count of turns does not matter once it covers the bytes left. *)
Lemma recordsLoop_stable n : forall m data currOffset items,
  (Z.to_nat (Buffer.byteLength data - currOffset) <= n)%nat ->
  (Z.to_nat (Buffer.byteLength data - currOffset) <= m)%nat ->
  recordsLoop parser visit n data currOffset items
  = recordsLoop parser visit m data currOffset items.
Proof.
  induction n as [|n IH]; intros m data currOffset items Hn Hm.
  - destruct m as [|m]; [done|]. simpl.
    destruct (Z.ltb_spec currOffset (Buffer.byteLength data)); [lia|done].
  - simpl.
    destruct (Z.ltb_spec currOffset (Buffer.byteLength data)) as [Hlt|Hge].
    + destruct m as [|m]; [lia|]. simpl.
      destruct (Z.ltb_spec currOffset (Buffer.byteLength data)); [|lia].
      destruct (Parser.parse parser (Buffer.slice data currOffset))
        as [[res offset]|e] eqn:Hparse; [|done].
      simpl. apply parse_offset_pos in Hparse. apply IH; lia.
    + destruct m as [|m]; [done|]. simpl.
      destruct (Z.ltb_spec currOffset (Buffer.byteLength data)); [lia|done].
Qed.

(** [records] is the [while] loop of the source. *)
Lemma records_unfold data currOffset items :
  records parser visit data currOffset items
  = if currOffset <? Buffer.byteLength data then
      let? (res, offset) :=
        Parser.parse parser (Buffer.slice data currOffset) in
      records parser visit data (currOffset + offset)
              (items ++ [visit currOffset res])
    else Ok items.
Proof.
  unfold records at 1.
  destruct (Z.ltb_spec currOffset (Buffer.byteLength data)) as [Hlt|Hge].
  - destruct (Z.to_nat (Buffer.byteLength data - currOffset)) as [|n] eqn:Hn;
      [lia|].
    simpl. destruct (Z.ltb_spec currOffset (Buffer.byteLength data)); [|lia].
    destruct (Parser.parse parser (Buffer.slice data currOffset))
      as [[res offset]|e] eqn:Hparse; [|done].
    simpl. apply parse_offset_pos in Hparse.
    apply recordsLoop_stable; lia.
  - replace (Z.to_nat (Buffer.byteLength data - currOffset)) with O by lia.
    done.
Qed.

(** A buffer made of whole records decodes to the list of its records. *)
Lemma records_whole n (P : A -> Prop) :
  yields n parser P -> forall (recs : list Buffer.t) (pre : Buffer.t) items,
  Forall (fun r => length r = n) recs ->
  exists elts,
    Forall2 (fun r elt => Parser.parse parser r = Ok (elt, Z.of_nat n) /\ P elt)
            recs elts
    /\ records parser visit (pre ++ concat recs) (Z.of_nat (length pre)) items
       = Ok (items
             ++ imap (fun i elt =>
                        visit (Z.of_nat (length pre) + Z.of_nat (i * n)) elt)
                     elts).
Proof.
  intros Hy recs. induction recs as [|r recs IH]; intros pre items Hall.
  - exists []. split; [constructor|]. rewrite records_unfold. simpl.
    rewrite !app_nil_r. unfold Buffer.byteLength.
    destruct (Z.ltb_spec (Z.of_nat (length pre)) (Z.of_nat (length pre)));
      [lia|done].
  - apply Forall_cons in Hall as [Hr Hall].
    assert (0 < n)%nat as Hn.
    { destruct n; [|lia]. apply nil_length_inv in Hr. subst r.
      destruct Hy as [Hy _]. destruct (Hy [] eq_refl) as (a & _ & Hrun).
      specialize (parser_progress [] a [] (Hrun [])). simpl in *. lia. }
    destruct (parse_yields n parser P r (concat recs) Hy Hr)
      as (elt & Helt & Hparse & Hparse').
    destruct (IH (pre ++ r) (items ++ [visit (Z.of_nat (length pre)) elt]) Hall)
      as (elts & Helts & Hrec).
    exists (elt :: elts). split; [by constructor|].
    rewrite records_unfold. simpl concat.
    unfold Buffer.byteLength at 1. rewrite !length_app.
    destruct (Z.ltb_spec (Z.of_nat (length pre))
                (Z.of_nat (length pre + (length r + length (concat recs)))));
      [|lia].
    rewrite slice_app_length, Hparse. simpl.
    rewrite <- app_assoc in Hrec. rewrite length_app, Hr in Hrec.
    replace (Z.of_nat (length pre) + Z.of_nat n)
      with (Z.of_nat (length pre + n)) by lia.
    rewrite Hrec, <- app_assoc. f_equal. f_equal. simpl. f_equal.
    + f_equal. lia.
    + apply imap_ext. intros i x _. simpl. f_equal. lia.
Qed.

End Records.

(** Both record parsers make progress, so [records_unfold] is the loop of
    [parseSummaryBlock] and of [parseBigBedBlock]. *)
Lemma summaryParser_progress be : progress (summaryParser be).
Proof.
  apply (yields_progress 32 _ _ ltac:(lia) (yields_summaryParser be)).
Qed.

Lemma zstring_progress : progress Parser.zstring.
Proof.
  intros buf. induction buf as [|b buf IH]; intros s rest; simpl; [discriminate|].
  destruct (Byte.eqb b Byte.x00).
  - intros [= _ <-]. lia.
  - destruct (Parser.zstring buf) as [[s' rest']|e] eqn:Hrun; [|discriminate].
    intros [= _ <-]. specialize (IH s' rest' eq_refl). lia.
Qed.

Lemma bind_progress {A B} (p : Parser.t A) (k : A -> Parser.t B) :
  progress p -> (forall a, progress (k a)) -> progress (Parser.bind p k).
Proof.
  intros Hp Hk buf b rest. unfold Parser.bind.
  destruct (p buf) as [[a rest']|e] eqn:Hrun; [|discriminate].
  intros Hrun'. apply Hp in Hrun. apply Hk in Hrun'. lia.
Qed.

Lemma bigBedParser_progress be : progress (bigBedParser be).
Proof.
  unfold bigBedParser.
  apply bind_progress;
    [apply (yields_progress 4 _ _ ltac:(lia) (yields_uint32 be))|intros chromId].
  apply bind_progress;
    [apply (yields_progress 4 _ _ ltac:(lia) (yields_int32 be))|intros start].
  apply bind_progress;
    [apply (yields_progress 4 _ _ ltac:(lia) (yields_int32 be))|intros end_].
  intros buf f rest. unfold Parser.bind, Parser.ret.
  destruct (Parser.zstring buf) as [[s rest']|e] eqn:Hrun; [|discriminate].
  intros [= _ <-]. by apply zstring_progress in Hrun.
Qed.

Lemma orOne_max validCnt : 0 <= validCnt -> orOne validCnt = Z.max validCnt 1.
Proof. unfold orOne. destruct (Z.eqb_spec validCnt 0); lia. Qed.

End DecoderFacts.

(** ** Summary blocks *)

Module SummaryFacts.
Import DecoderFacts.

(** [summaryParser] reads the eight fields of a record from its 32 bytes. *)
Lemma summaryParser_record be (r more : Buffer.t) :
  length r = 32%nat ->
  summaryParser be (r ++ more) = Ok (SummaryRecord.read be r, more).
Proof.
  intros Hlen. do 32 (destruct r as [|? r]; [simpl in Hlen; lia|]).
  destruct r; [|simpl in Hlen; lia]. reflexivity.
Qed.

Lemma parse_record be (r : Buffer.t) elt n :
  length r = 32%nat ->
  Parser.parse (summaryParser be) r = Ok (elt, n) ->
  elt = SummaryRecord.read be r.
Proof.
  intros Hlen. unfold Parser.parse.
  pose proof (summaryParser_record be r [] Hlen) as Hrun.
  rewrite app_nil_r in Hrun. rewrite Hrun. by intros [= <- _].
Qed.

Lemma parsed_records be (recs : list Buffer.t) : forall elts,
  Forall (fun r => length r = 32%nat) recs ->
  Forall2 (fun r elt =>
             Parser.parse (summaryParser be) r = Ok (elt, Z.of_nat 32)
             /\ 0 <= s_validCnt elt < 2 ^ 32) recs elts ->
  elts = SummaryRecord.read be <$> recs.
Proof.
  induction recs as [|r recs IH]; intros elts Hlen Hall.
  - by apply Forall2_nil_inv_l in Hall as ->.
  - apply Forall2_cons_inv_l in Hall as (elt & elts' & [Hparse _] & Hall & ->).
    apply Forall_cons in Hlen as [Hr Hlen]. rewrite fmap_cons.
    f_equal; [by eapply parse_record|by apply IH].
Qed.

Lemma filter_true {A} (l : list A) : List.filter (fun _ => true) l = l.
Proof. induction l as [|x l IH]; [done|]. simpl. by rewrite IH. Qed.

Lemma read_validCnt be (r : Buffer.t) :
  0 <= s_validCnt (SummaryRecord.read be r) < 2 ^ 32.
Proof.
  pose proof (ParserFacts.value_range be (take 4 (drop 12 r))) as Hv.
  assert (256 ^ Z.of_nat (length (take 4 (drop 12 r))) <= 2 ^ 32).
  { change (2 ^ 32) with (256 ^ 4). apply Z.pow_le_mono_r; [lia|].
    rewrite length_take. lia. }
  simpl. unfold SummaryRecord.u32. lia.
Qed.

Lemma summaryFeature_project be (r : Buffer.t) :
  BlockView.summaryFeature (SummaryRecord.read be r)
  = SummaryRecord.project (SummaryRecord.read be r).
Proof.
  unfold BlockView.summaryFeature, SummaryRecord.project, BlockView.number.
  by rewrite orOne_max by apply read_validCnt.
Qed.

End SummaryFacts.

(** C8. Every 32-byte record of a summary block yields a feature whose
    score is [sumData / max(validCnt, 1)] (so [sumData / 1] when [validCnt]
    is 0), whose [summary] flag is set and whose [start], [end], [minScore]
    and [maxScore] are those of the record, each field being read from its
    bytes of the record: a block made of the records [recs] decodes to the
    projections of its records, less those that the request, if there is
    one, filters out. *)
Theorem summary_score (be : bool) (recs : list Buffer.t)
    (request : option CoordRequest) :
  Forall (fun r => length r = 32%nat) recs ->
  BlockView.parseSummaryBlock be (concat recs) 0 request
  = Ok (List.filter (SummaryRecord.inRequest request)
          (SummaryRecord.project
           <$> List.filter (SummaryRecord.ofChrom request)
                           (SummaryRecord.read be <$> recs))).
Proof.
  intros Hrecs.
  pose proof (ParserFacts.yields_summaryParser be) as Hy.
  destruct (DecoderFacts.records_whole (summaryParser be) (fun _ r => r)
              (ParserFacts.yields_progress 32 _ _ ltac:(lia) Hy)
              32 _ Hy recs [] [] Hrecs) as (elts & Helts & Hrun).
  apply SummaryFacts.parsed_records in Helts as ->; [|done].
  unfold BlockView.parseSummaryBlock.
  change (BlockView.records _ _ ([] ++ concat recs) (Z.of_nat (length [])) [])
    with (BlockView.records (summaryParser be) (fun _ r => r) (concat recs) 0 [])
    in Hrun.
  rewrite Hrun. simpl. f_equal.
  rewrite (imap_ext _ (const id) (SummaryRecord.read be <$> recs)) by done.
  rewrite imap_const, list_fmap_id.
  assert (forall l : list Buffer.t,
            List.map BlockView.summaryFeature
              (List.filter (SummaryRecord.ofChrom request)
                           (SummaryRecord.read be <$> l))
            = SummaryRecord.project
              <$> List.filter (SummaryRecord.ofChrom request)
                              (SummaryRecord.read be <$> l)) as Hproject.
  { induction l as [|r l IH]; [done|]. rewrite fmap_cons.
    cbn [List.filter].
    destruct (SummaryRecord.ofChrom request _); [|exact IH].
    rewrite fmap_cons, List.map_cons.
    rewrite SummaryFacts.summaryFeature_project. f_equal. exact IH. }
  destruct request as [r|]; simpl.
  - exact (f_equal (List.filter (SummaryRecord.inRequest (Some r)))
                   (Hproject recs)).
  - rewrite !SummaryFacts.filter_true.
    pose proof (Hproject recs) as H. simpl in H.
    rewrite SummaryFacts.filter_true in H. exact H.
Qed.

Lemma summary_score_witness :
  let request := Some (mkRequest (Some 5) 150 250) in
  Forall (fun r => length r = 32%nat) [Sample.summaryRecord]
  /\ BlockView.parseSummaryBlock false (concat [Sample.summaryRecord]) 0 request
     = Ok (List.filter (SummaryRecord.inRequest request)
             (SummaryRecord.project
              <$> List.filter (SummaryRecord.ofChrom request)
                              (SummaryRecord.read false
                               <$> [Sample.summaryRecord])))
  /\ SummaryRecord.project (SummaryRecord.read false Sample.summaryRecord)
     = {| start := Some 100; end_ := Some 200; score := Some 2%float;
          minScore := Some (-1)%float; maxScore := Some 3%float;
          summary := true;
          chromId := None; rest := None; uniqueId := None |}.
Proof.
  intros request.
  assert (Forall (fun r => length r = 32%nat) [Sample.summaryRecord]) as H
    by (repeat constructor).
  split; [exact H|].
  split; [exact (summary_score false [Sample.summaryRecord] request H)|].
  vm_compute. reflexivity.
Defined.

(** Scenario S4: the record with [validCnt = 10] and [sumData = 20], asked
    for [150, 250) on chromosome 5, gives one feature of score 2. *)
Example summary_scenario :
  BlockView.parseSummaryBlock false Sample.summaryRecord 0
    (Some (mkRequest (Some 5) 150 250))
  = Ok [ {| start := Some 100; end_ := Some 200; score := Some 2%float;
            minScore := Some (-1)%float; maxScore := Some 3%float;
            summary := true;
            chromId := None; rest := None; uniqueId := None |} ].
Proof. vm_compute. reflexivity. Qed.

(** A record whose [validCnt] is 0 is divided by 1. *)
Example summary_zero_count :
  BlockView.parseSummaryBlock false
    (Sample.u32 5 ++ Sample.u32 100 ++ Sample.u32 200 ++ Sample.u32 0
     ++ Sample.u32 0 ++ Sample.u32 0 ++ Sample.u32 0x41A00000 ++ Sample.u32 0)
    0 None
  = Ok [ {| start := Some 100; end_ := Some 200; score := Some 20%float;
            minScore := Some 0%float; maxScore := Some 0%float;
            summary := true;
            chromId := None; rest := None; uniqueId := None |} ].
Proof. vm_compute. reflexivity. Qed.

(** ** Fixed-step blocks and unknown block types *)

(** C1. A fixed-step block whose header says [blockStart = 100],
    [itemStep = 10], [itemSpan = 5] decodes to features that start at 0 and
    10: [blockStart] is parsed and not added. *)
Theorem fstep_ignores_blockStart :
  (exists items n,
     Parser.parse (bigWigParser false) Sample.fstepBlock100
     = Ok ((mkWigHeader 100 10 5 BIG_WIG_TYPE_FSTEP 2, items), n))
  /\ BlockView.parseBigWigBlock false Sample.fstepBlock100 0 None
     = Ok [ item (Some 0) (Some 5) (Buffer.float_of_bits32 0x3DCCCCCD);
            item (Some 10) (Some 15) (Buffer.float_of_bits32 0x3E4CCCCD) ].
Proof.
  split; [|vm_compute; reflexivity].
  eexists _, _. vm_compute. reflexivity.
Qed.

(** C9. A bigWig block whose header carries a type other than 1, 2 and 3
    makes the parser throw: [parseBigWigBlock] returns no feature list, with
    or without a request, and has no warning to give. *)
Theorem unknown_blockType_throws :
  (exists n,
     Parser.parse (Parser.array 5 (Parser.uint32 false)) Sample.unknownBlock
     = Ok ([0; 0; 30; 10; 5], n)
     /\ Buffer.byte_val <$> Sample.unknownBlock !! 20%nat = Some 7)
  /\ BlockView.parseBigWigBlock false Sample.unknownBlock 0 None
     = Throw (UndefinedTag 7)
  /\ BlockView.parseBigWigBlock false Sample.unknownBlock 0
       (Some (mkRequest (Some 0) 0 1000))
     = Throw (UndefinedTag 7).
Proof.
  split; [eexists; split; vm_compute; reflexivity|].
  split; vm_compute; reflexivity.
Qed.

(** X3. Whatever the block, a type byte other than 1, 2 and 3 makes
    [parseBigWigBlock] throw. *)
Lemma unknown_blockType_always_throws be (bytes : Buffer.t) request t :
  (24 <= length bytes)%nat ->
  Buffer.byte_val <$> bytes !! 20%nat = Some t ->
  t <> BIG_WIG_TYPE_GRAPH -> t <> BIG_WIG_TYPE_VSTEP -> t <> BIG_WIG_TYPE_FSTEP ->
  BlockView.parseBigWigBlock be bytes 0 request = Throw (UndefinedTag t).
Proof.
  intros Hlen Ht Hgraph Hvstep Hfstep.
  do 24 (destruct bytes as [|? bytes]; [simpl in Hlen; lia|]).
  simpl in Ht. injection Ht as Ht.
  unfold BlockView.parseBigWigBlock. rewrite DecoderFacts.slice_0.
  unfold Parser.parse, bigWigParser.
  cbn -[Buffer.value Z.eqb Buffer.to_int32 Buffer.float_of_bits32].
  match goal with
  | |- context [Buffer.value false [?b]] =>
      replace (Buffer.value false [b]) with t
        by (rewrite <- Ht; unfold Buffer.value; simpl; lia)
  end.
  destruct (Z.eqb_spec t BIG_WIG_TYPE_FSTEP); [done|].
  destruct (Z.eqb_spec t BIG_WIG_TYPE_VSTEP); [done|].
  destruct (Z.eqb_spec t BIG_WIG_TYPE_GRAPH); [done|].
  done.
Qed.

Lemma unknown_blockType_always_throws_witness :
  (24 <= length Sample.unknownBlock)%nat
  /\ Buffer.byte_val <$> Sample.unknownBlock !! 20%nat = Some 7
  /\ BlockView.parseBigWigBlock true Sample.unknownBlock 0 None
     = Throw (UndefinedTag 7).
Proof.
  assert (24 <= length Sample.unknownBlock)%nat as Hlen by (simpl; lia).
  assert (Buffer.byte_val <$> Sample.unknownBlock !! 20%nat = Some 7) as Ht
    by reflexivity.
  split; [exact Hlen|]. split; [exact Ht|].
  apply (unknown_blockType_always_throws true Sample.unknownBlock None 7 Hlen Ht);
    discriminate.
Defined.

(** ** Array.prototype.sort *)

Module SortFacts.

Section Sort.
Context {A : Type} (comparefn : A -> A -> Z).

Lemma insert_perm element prefix :
  Permutation (JsArray.insert comparefn element prefix) (element :: prefix).
Proof.
  induction prefix as [|tmp prefix IH]; simpl; [done|].
  destruct (comparefn tmp element >? 0); [|done].
  rewrite IH. apply perm_swap.
Qed.

Lemma sort_perm a : Permutation (JsArray.sort comparefn a) a.
Proof.
  unfold JsArray.sort. rewrite <- Permutation_rev.
  assert (forall prefix,
            Permutation
              (fold_left (fun prefix element =>
                            JsArray.insert comparefn element prefix) a prefix)
              (a ++ prefix)) as Hfold.
  { induction a as [|x a IH]; intros prefix; simpl; [done|].
    rewrite IH, insert_perm. by rewrite Permutation_middle. }
  rewrite Hfold. by rewrite app_nil_r.
Qed.

(** A comparator that is positive exactly when the key of its first
    argument is the larger one sorts by that key. *)
Variable key : A -> Z.
Hypothesis comparefn_key : forall a b, 0 < comparefn a b <-> key b < key a.

Lemma insert_sorted element prefix :
  StronglySorted (fun x y => key y <= key x) prefix ->
  StronglySorted (fun x y => key y <= key x)
                 (JsArray.insert comparefn element prefix).
Proof.
  induction 1 as [|tmp prefix Hsorted IH Hall]; simpl.
  - repeat constructor.
  - destruct (Z.gtb_spec (comparefn tmp element) 0) as [Hgt|Hle].
    + apply comparefn_key in Hgt. constructor; [exact IH|].
      rewrite insert_perm. constructor; [lia|exact Hall].
    + assert (key tmp <= key element) as Hk.
      { destruct (Z.le_gt_cases (key tmp) (key element)) as [|Hlt]; [done|].
        apply comparefn_key in Hlt. lia. }
      constructor; [by constructor|].
      constructor; [done|].
      eapply Forall_impl; [exact Hall|]. simpl. intros; lia.
Qed.

Lemma rev_sorted (l : list A) :
  StronglySorted (fun x y => key y <= key x) l ->
  StronglySorted (fun x y => key x <= key y) (rev l).
Proof.
  induction 1 as [|x l Hsorted IH Hall]; simpl; [constructor|].
  apply StronglySorted_app_2; [|exact IH|repeat constructor].
  intros x1 x2 Hx1 Hx2. apply list_elem_of_singleton in Hx2 as ->.
  rewrite Forall_forall in Hall. apply Hall.
  apply list_elem_of_In. apply list_elem_of_In, in_rev in Hx1.
  by apply list_elem_of_In, list_elem_of_In.
Qed.

Lemma sort_sorted a :
  StronglySorted (fun x y => key x <= key y) (JsArray.sort comparefn a).
Proof.
  unfold JsArray.sort. apply rev_sorted.
  assert (forall prefix,
            StronglySorted (fun x y => key y <= key x) prefix ->
            StronglySorted (fun x y => key y <= key x)
              (fold_left (fun prefix element =>
                            JsArray.insert comparefn element prefix) a prefix))
    as Hfold.
  { induction a as [|x a IH]; intros prefix Hp; simpl; [done|].
    apply IH, insert_sorted, Hp. }
  apply Hfold. constructor.
Qed.

End Sort.

End SortFacts.

(** ** groupBlocks *)

Module UtilFacts.


Lemma byOffset_key b0 b1 :
  0 < Util.byOffset b0 b1
  <-> Util.ToInt32 (Block.offset b1) < Util.ToInt32 (Block.offset b0).
Proof. unfold Util.byOffset. rewrite !Z.lor_0_r. lia. Qed.


(** It ascends by [offset | 0]. *)
Lemma sorted_by_ToInt32 blocks :
  StronglySorted
    (fun b0 b1 => Util.ToInt32 (Block.offset b0) <= Util.ToInt32 (Block.offset b1))
    (JsArray.sort Util.byOffset blocks).
Proof.
  apply (SortFacts.sort_sorted Util.byOffset
           (fun b => Util.ToInt32 (Block.offset b))).
  apply byOffset_key.
Qed.



Lemma lookup_last {A} (l : list A) (x : A) : (l ++ [x]) !! length l = Some x.
Proof. apply list_lookup_middle. done. Qed.



End UtilFacts.




(** Scenario S3: blocks at 1000 (200 bytes), 1300 (100 bytes) and 10000
    (50 bytes) make two groups. *)
Example coalescing_scenario :
  fst (Util.groupBlocks [Block.mk 1300 100; Block.mk 10000 50; Block.mk 1000 200])
  = [ Group.mk [Block.mk 1000 200; Block.mk 1300 100] 400 1000;
      Group.mk [Block.mk 10000 50] 50 10000 ].
Proof. vm_compute. reflexivity. Qed.

(** C5. The comparator of [groupBlocks] compares [offset | 0]: a block at
    offset 2^31 is put before a block at offset 1, and the two are then
    merged into one group of negative size. *)
Theorem groupBlocks_truncates_offsets :
  let blocks := [Block.mk 1 10; Block.mk (2 ^ 31) 10] in
  snd (Util.groupBlocks blocks) = [Block.mk (2 ^ 31) 10; Block.mk 1 10]
  /\ ~ StronglySorted (fun b0 b1 => Block.offset b0 <= Block.offset b1)
                      (snd (Util.groupBlocks blocks))
  /\ fst (Util.groupBlocks blocks)
     = [Group.mk [Block.mk (2 ^ 31) 10; Block.mk 1 10] (-2147483637) (2 ^ 31)].
Proof.
  repeat split; try (vm_compute; reflexivity).
  intros Hsorted. vm_compute in Hsorted.
  apply StronglySorted_inv in Hsorted as [_ Hall].
  apply Forall_inv in Hall. vm_compute in Hall. by apply Hall.
Qed.

(** ** Range.union *)

(** C6. [union] throws a TypeError on every pair of ranges, whatever their
    spans: its first step calls the property [ranges] as a function.  So
    does the union of [[0, 10]] and [[20, 30]], which the specification
    gives as the range set [[0, 10], [20, 30]]. *)
Theorem union_always_throws :
  (forall s0 s1 : Range.t, Range.union s0 s1 = Throw TypeError)
  /\ Range.union (Range.new 0 10) (Range.new 20 30) = Throw TypeError
  /\ Range.min (Range.new 0 10) = Ok 0
  /\ Range.max (Range.new 20 30) = Ok 30.
Proof. by repeat split. Qed.


(** ** The query *)

Module QueryFacts.
Import BlockView Observer.






End QueryFacts.

(** ** groupBlocks on descriptors without a size *)

Module LooseFacts.
Import Util.Loose Sized.

Section Unsized.
Context {B : Type}.
Variable offset_of : B -> Z.

(** The group that a block makes by itself. *)
Local Abbreviation single := (fun b : B => mkGroup [b] None (offset_of b)).

(** Without sizes [lastBlockEnd] is [NaN] from the first block on, and the
    test of the loop fails. *)
Lemma step_unsized v b :
  lastBlockEnd v = None ->
  step offset_of (fun _ => None) v b
  = mkVars (blockGroups v ++ [single b]) (Some (length (blockGroups v))) None.
Proof.
  intros Hend. unfold step. rewrite Hend.
  assert (groupEnd (blockGroups v ++ [single b]) (length (blockGroups v)) None
          = None) as Hfresh.
  { unfold groupEnd. by rewrite UtilFacts.lookup_last. }
  destruct (lastBlock v); simpl; by rewrite Hfresh.
Qed.

Lemma loop_unsized blocks : forall v,
  lastBlockEnd v = None ->
  blockGroups (fold_left (step offset_of (fun _ => None)) blocks v)
  = blockGroups v ++ (single <$> blocks).
Proof.
  induction blocks as [|b blocks IH]; intros v Hv; simpl.
  - by rewrite app_nil_r.
  - rewrite step_unsized by done. rewrite IH by done.
    simpl. by rewrite <- app_assoc.
Qed.

Lemma groupBlocks_unsized blocks :
  groupBlocks offset_of (fun _ => None) blocks
  = (single <$> JsArray.sort (byOffset offset_of) blocks,
     JsArray.sort (byOffset offset_of) blocks).
Proof. unfold groupBlocks. by rewrite loop_unsized. Qed.

End Unsized.

(** On descriptors that have a size, the loop is that of [Util.step]. *)

Lemma groupEnd_sized groups i otherwise otherwise' :
  (groups !! i = None -> otherwise' = Some otherwise) ->
  groupEnd (sized <$> groups) i otherwise'
  = Some (Util.groupEnd groups i otherwise).
Proof.
  intros Hother. unfold groupEnd, Util.groupEnd. rewrite list_lookup_fmap.
  destruct (groups !! i) as [g|]; simpl; [done|by apply Hother].
Qed.

Lemma step_sized v v' b :
  alike v v' ->
  alike (Util.step v b)
        (step Block.offset (fun b => Some (Block.size b)) v' b).
Proof.
  intros (Hgroups & Hlast & Hend).
  assert (alike
            (let groups :=
               Util.blockGroups v
               ++ [Group.mk [b] (Block.size b) (Block.offset b)] in
             let i := length (Util.blockGroups v) in
             Util.mkVars groups (Some i)
                         (Util.groupEnd groups i (Util.lastBlockEnd v)))
            (let groups :=
               blockGroups v'
               ++ [mkGroup [b] (Some (Block.size b)) (Block.offset b)] in
             let i := length (blockGroups v') in
             mkVars groups (Some i) (groupEnd groups i (lastBlockEnd v'))))
    as Hfresh.
  { cbv zeta. rewrite Hgroups, length_fmap.
    replace ((sized <$> Util.blockGroups v)
             ++ [mkGroup [b] (Some (Block.size b)) (Block.offset b)])
      with (sized <$> (Util.blockGroups v
                       ++ [Group.mk [b] (Block.size b) (Block.offset b)]))
      by by rewrite fmap_app.
    split; [done|]. split; [done|]. intros _. simpl.
    apply groupEnd_sized. by rewrite UtilFacts.lookup_last. }
  unfold step, Util.step. rewrite Hlast.
  destruct (Util.lastBlock v) as [i|]; [|exact Hfresh].
  rewrite (Hend ltac:(done)) in *. simpl leb.
  destruct (Block.offset b - Util.lastBlockEnd v <=? 2000); [|exact Hfresh].
  match goal with
  | |- alike (Util.mkVars (alter ?g _ _) _ _) (mkVars (alter ?h _ _) _ _) =>
      assert (alter h i (sized <$> Util.blockGroups v)
              = sized <$> alter g i (Util.blockGroups v)) as Halter
        by (symmetry; apply list_fmap_alter, Forall_forall; by intros)
  end.
  split; [|split; [done|intros _]];
    cbn [blockGroups Util.blockGroups lastBlockEnd Util.lastBlockEnd];
    rewrite Hgroups, Halter; [done|].
  apply groupEnd_sized. by intros _.
Qed.

Lemma groupBlocks_sized blocks :
  groupBlocks Block.offset (fun b => Some (Block.size b)) blocks
  = (sized <$> fst (Util.groupBlocks blocks), snd (Util.groupBlocks blocks)).
Proof.
  unfold groupBlocks, Util.groupBlocks. simpl.
  change (byOffset Block.offset) with Util.byOffset.
  f_equal.
  assert (forall l v v', alike v v' ->
            alike (fold_left Util.step l v)
                  (fold_left (step Block.offset (fun b => Some (Block.size b)))
                             l v')) as Hloop.
  { induction l as [|b l IH]; intros v v' Hv; [done|].
    simpl. by apply IH, step_sized. }
  by destruct (Hloop (JsArray.sort Util.byOffset blocks)
                 (Util.mkVars [] None 0) (mkVars [] None None)
                 ltac:(by repeat split)) as [-> _].
Qed.

End LooseFacts.

(** X5. On the descriptors that [blockView.ts] builds, which have an
    [offset] and a [length] and no [size], [groupBlocks] merges nothing:
    each block makes a group of its own, of undefined size, in the order of
    the sorted array, however close the blocks are. *)
Theorem groupBlocks_without_size (blocks : list Descriptor.t) :
  let sorted := JsArray.sort (Util.Loose.byOffset Descriptor.offset) blocks in
  Util.Loose.groupBlocks Descriptor.offset (fun _ => None) blocks
  = ((fun b => Util.Loose.mkGroup [b] None (Descriptor.offset b)) <$> sorted,
     sorted)
  /\ Permutation blocks sorted.
Proof.
  split; [apply LooseFacts.groupBlocks_unsized|].
  symmetry. apply SortFacts.sort_perm.
Qed.

(** Two blocks that touch: by their sizes they make one group, without
    sizes they make two. *)
Example groupBlocks_adjacent :
  fst (Util.groupBlocks [Block.mk 1000 200; Block.mk 1200 100])
  = [Group.mk [Block.mk 1000 200; Block.mk 1200 100] 300 1000]
  /\ fst (Util.Loose.groupBlocks Descriptor.offset (fun _ => None)
            [Descriptor.mk 1000 (Some 200); Descriptor.mk 1200 (Some 100)])
     = [ Util.Loose.mkGroup [Descriptor.mk 1000 (Some 200)] None 1000;
         Util.Loose.mkGroup [Descriptor.mk 1200 (Some 100)] None 1200 ].
Proof. split; vm_compute; reflexivity. Qed.

(** ** The walk of the index and the protocol of the observer *)

Module SchedulerFacts.
Import BlockView Observer Accounting Protocol.

Lemma callbacks_app tr1 tr2 :
  callbacks (tr1 ++ tr2) = callbacks tr1 ++ callbacks tr2.
Proof. apply List.filter_app. Qed.

Lemma awaited_app fs1 fs2 :
  awaited (fs1 ++ fs2) = (awaited fs1 + awaited fs2)%nat.
Proof. apply sum_list_with_app. Qed.

Lemma awaited_cons f fs : awaited (f :: fs) = (hits f + awaited fs)%nat.
Proof. done. Qed.

(** The terminal callbacks of a trace are those of its callbacks. *)
Lemma terminals_callbacks tr : terminals tr = terminals (callbacks tr).
Proof.
  unfold terminals, callbacks. f_equal.
  induction tr as [|ev tr IH]; [done|]. destruct ev; simpl; by rewrite ?IH.
Qed.

Lemma walking_weaken early more q : walking early more q -> walking early 0 q.
Proof. intros [Hcalls Hout]. split; [done|lia]. Qed.

Lemma walking_rejected early more q e :
  walking early more q -> walking early more (emit q [rejected e]).
Proof.
  intros [Hcalls Hout]. split; [|done]. simpl.
  by rewrite callbacks_app, Hcalls, app_nil_r.
Qed.

Lemma settled_rejected early q e :
  settled early q -> settled early (emit q [rejected e]).
Proof.
  intros (Hnone & Hzero & Hend). split; [done|]. split; [done|]. simpl.
  rewrite callbacks_app, app_nil_r.
  destruct Hend as [[Hblocks Hcalls]|(Hblocks & Hcalls & Hin)]; [by left|].
  right. split; [done|]. split; [done|]. apply in_or_app. by left.
Qed.

Section Walk.
Variable inflateSync : Buffer.t -> result Buffer.t.
Variable self : t.
Variable request : CoordRequest.
Variable cirBlockSize : Z.
Variable early : list event.

(** [readFeatures] completes on an empty list of blocks, and ends with a
    TypeError on any other: the groups of its blocks have no [length]. *)
Lemma allGroups_fail groups :
  allGroups inflateSync self request groups
  = ([], match groups with [] => None | _ :: _ => Some TypeError end).
Proof.
  induction groups as [|g groups IH]; [done|]. simpl. by rewrite IH.
Qed.

Lemma readFeatures_events blocks :
  let r := readFeatures inflateSync self request blocks in
  (blocks = [] /\ r = ([complete], []))
  \/ (blocks <> [] /\ snd r <> [] /\ fst r = [rejected TypeError]).
Proof.
  unfold readFeatures. rewrite LooseFacts.groupBlocks_unsized, allGroups_fail.
  destruct blocks as [|b blocks]; [by left|]. right. split; [done|].
  pose proof (SortFacts.sort_perm
                (Util.Loose.byOffset Descriptor.offset) (b :: blocks)) as Hperm.
  destruct (JsArray.sort _ (b :: blocks)) as [|b' sorted].
  - by apply Permutation_nil_cons in Hperm.
  - by split.
Qed.

(** A round of one offset asks for one range; a round of more offsets ends
    in [Range.union]. *)
Lemma cirFobRecur_one o level q :
  let hi := Number.round (o + (4 + cirBlockSize * 32)) in
  cirFobRecur cirBlockSize o [] level q
  = (mkQuery (blocksToFetch q) (outstanding q + 1)
             (pending q
              ++ [mkFetch [o] (Range.new o hi) level (Number.round (hi - o)) o])
             (trace q ++ [cache_get (Number.round (hi - o)) o]), None).
Proof. reflexivity. Qed.

Lemma cirFobRecur_many o o' os level q :
  cirFobRecur cirBlockSize o (o' :: os) level q
  = (mkQuery (blocksToFetch q)
             (outstanding q + Z.of_nat (length (o :: o' :: os)))
             (pending q) (trace q), Some TypeError).
Proof. reflexivity. Qed.

Lemma cirFobRecur_walking more o os level q :
  walking early more q ->
  walking early more (fst (cirFobRecur cirBlockSize o os level q)).
Proof.
  intros [Hcalls Hout]. destruct os as [|o' os].
  - rewrite cirFobRecur_one. cbv zeta. split; simpl.
    + by rewrite callbacks_app, Hcalls, app_nil_r.
    + rewrite awaited_app. unfold awaited at 2, hits. simpl.
      destruct (Range.contains _ o); simpl; lia.
  - rewrite cirFobRecur_many. split; simpl; [done|lia].
Qed.

Lemma cirFobRecur2_walking more cirBlockData offset level q :
  walking early more q ->
  walking early more
    (fst (cirFobRecur2 self request cirBlockSize cirBlockData offset level q)).
Proof.
  intros Hq. unfold cirFobRecur2.
  destruct (Parser.parse _ _) as [[[entries|entries] n]|]; simpl; [|..|done].
  - done.
  - destruct (List.map _ _) as [|o os]; [done|].
    by apply cirFobRecur_walking.
Qed.

(** A loop without an offset to visit changes nothing. *)
Lemma visitOffsets_miss f resultBuffer off q :
  List.filter (Range.contains (f_fr f)) off = [] ->
  visitOffsets inflateSync self request cirBlockSize f resultBuffer off q
  = (q, None).
Proof.
  induction off as [|o off IH]; [done|]. simpl.
  destruct (Range.contains (f_fr f) o); [done|]. exact IH.
Qed.

Lemma visitOffsets_walking f resultBuffer off : forall q,
  walking early (length (List.filter (Range.contains (f_fr f)) off)) q ->
  let r := visitOffsets inflateSync self request cirBlockSize
                        f resultBuffer off q in
  (exists more, walking early more (fst r)) \/ settled early (fst r).
Proof.
  induction off as [|o off IH]; intros q Hq; simpl.
  { left. by exists 0%nat. }
  simpl in Hq. destruct (Range.contains (f_fr f) o) eqn:Ho; [|by apply IH].
  simpl in Hq.
  pose proof (cirFobRecur2_walking _ resultBuffer
                (Number.round (o - f_offset f)) (f_level f) q Hq) as Hq1.
  destruct (cirFobRecur2 _ _ _ _ _ _ _) as [q1 [e|]]; simpl in *.
  { left. by eexists. }
  destruct Hq1 as [Hcalls Hout].
  destruct (Z.eqb_spec (outstanding q1 - 1) 0) as [Hzero|Hmore].
  - (* [outstanding] reaches zero: no offset is left to visit *)
    right.
    assert (List.filter (Range.contains (f_fr f)) off = []) as Hnone.
    { destruct (List.filter _ off); [done|simpl in Hout; lia]. }
    destruct (readFeatures_events (blocksToFetch q1))
      as [[Hblocks Hread]|(Hblocks & Hsorted & Hread)];
      destruct (readFeatures _ _ _ _) as [evs blocks]; simpl in *.
    + injection Hread as -> ->. rewrite visitOffsets_miss by done.
      unfold settled. simpl.
      split; [lia|]. split; [done|]. left. split; [done|].
      by rewrite callbacks_app, Hcalls.
    + subst evs. rewrite visitOffsets_miss by done. unfold settled. simpl.
      split; [lia|]. split; [done|]. right. split; [done|].
      split; [by rewrite callbacks_app, Hcalls, app_nil_r|].
      apply in_or_app. right. by left.
  - apply IH. split; simpl; [done|lia].
Qed.

Lemma resume_walking f q :
  walking early (hits f) q ->
  let q' := resume inflateSync self request cirBlockSize f q in
  walking early 0 q' \/ settled early q'.
Proof.
  intros Hq. unfold resume.
  destruct (fill _ _ _) as [resultBuffer|e].
  - pose proof (visitOffsets_walking f resultBuffer (f_off f) q Hq) as Hvisit.
    destruct (visitOffsets _ _ _ _ _ _ _ _) as [q' [e|]]; simpl in Hvisit.
    + destruct Hvisit as [[more Hq']|Hq'].
      * left. eapply walking_weaken. by apply walking_rejected.
      * right. by apply settled_rejected.
    + destruct (_ =? 0).
      * destruct Hvisit as [[more Hq']|Hq']; [left|by right].
        by eapply walking_weaken.
      * destruct Hvisit as [[more Hq']|Hq'].
        -- left. eapply walking_weaken. by apply walking_rejected.
        -- right. by apply settled_rejected.
  - left. eapply walking_weaken. by apply walking_rejected.
Qed.

Lemma resume_settled f q :
  hits f = 0%nat -> settled early q ->
  settled early (resume inflateSync self request cirBlockSize f q).
Proof.
  intros Hf Hq. unfold resume.
  destruct (fill _ _ _) as [resultBuffer|e]; [|by apply settled_rejected].
  rewrite visitOffsets_miss.
  - pose proof Hq as (_ & Hzero & _). by rewrite Hzero.
  - unfold hits in Hf. by destruct (List.filter _ (f_off f)).
Qed.

Lemma run_walking n : forall q,
  walking early 0 q \/ settled early q ->
  let q' := run inflateSync self request cirBlockSize n q in
  walking early 0 q' \/ settled early q'.
Proof.
  induction n as [|n IH]; intros q Hq; simpl; [done|].
  destruct (pending q) as [|f fs] eqn:Hpending; [done|].
  apply IH. destruct Hq as [[Hcalls Hout]|(Hnone & Hzero & Hend)].
  - apply resume_walking. rewrite Hpending, awaited_cons in Hout.
    split; simpl; [done|lia].
  - right. rewrite Hpending, awaited_cons in Hnone.
    apply resume_settled; [lia|]. split; simpl; [lia|]. by split.
Qed.

End Walk.

(** The states that a query can reach. *)
Lemma readWigData_states inflateSync self chrName start end_ n :
  let early := match refsByName self !! chrName with
               | None => [complete]
               | Some _ => []
               end in
  let q := readWigData inflateSync self chrName start end_ n in
  walking early 0 q \/ settled early q.
Proof.
  intros early q. subst q. unfold readWigData. fold early.
  assert (callbacks early = early) as Hearly
    by (subst early; by destruct (_ !! _)).
  destruct (readAt _ _ _) as [buffer|e].
  - rewrite cirFobRecur_one. cbv zeta. apply run_walking. left.
    split; simpl.
    + rewrite !callbacks_app, Hearly. simpl. by rewrite !app_nil_r.
    + unfold awaited, hits. simpl. destruct (Range.contains _ _); simpl; lia.
  - left. split; simpl; [|lia]. by rewrite callbacks_app, Hearly, app_nil_r.
Qed.

(** What the observer has seen, whatever the state. *)
Lemma readWigData_callbacks inflateSync self chrName start end_ n :
  let early := match refsByName self !! chrName with
               | None => [complete]
               | Some _ => []
               end in
  let q := readWigData inflateSync self chrName start end_ n in
  (callbacks (trace q) = early
   /\ (settled early q -> blocksToFetch q <> []))
  \/ (callbacks (trace q) = early ++ [complete] /\ blocksToFetch q = []).
Proof.
  intros early q.
  destruct (readWigData_states inflateSync self chrName start end_ n)
    as [[Hcalls _]|Hs].
  - left. split; [done|]. intros (_ & _ & [[_ Hc]|[Hb _]]); [|done].
    fold early in Hcalls, Hc. fold q in Hcalls, Hc. rewrite Hcalls in Hc.
    apply (f_equal length) in Hc. rewrite length_app in Hc. simpl in Hc. lia.
  - destruct Hs as (H1 & H2 & [[Hb Hc]|(Hb & Hc & Hin)]) eqn:E; [by right|].
    left. by split.
Qed.


End SchedulerFacts.



(** Scenario S5 as a query: the block at [10, 15) is found in the index
    and its descriptor is handed to [readFeatures], which ends with a
    TypeError before it reads the block.  Nothing is delivered, and the
    query does not complete. *)
Example fixed_step_scenario :
  let q := BlockView.readWigData Sample.noInflate
             (Sample.view Sample.fstepBlock {[ "chr1"%string := 0 ]})
             "chr1" 12 14 10 in
  BlockView.trace q
  = [ BlockView.bbi_read 48 0; BlockView.cache_get 36 48;
      BlockView.rejected TypeError ]
  /\ BlockView.blocksToFetch q = [Descriptor.mk 84 (Some 36)]
  /\ BlockView.pending q = [].
Proof. repeat split; vm_compute; reflexivity. Qed.

(** C2. For a reference name that [refsByName] lacks, [readWigData] calls
    [observer.complete()] and goes on: it reads the header of the index,
    fetches the root node, and calls [observer.complete()] a second time
    (scenario S1: no reference at all, the query [("chr1", 0, 1000)]). *)
Theorem unknown_reference_still_traverses :
  let self := Sample.view Sample.fstepBlock ∅ in
  let q := BlockView.readWigData Sample.noInflate self "chr1" 0 1000 10 in
  BlockView.refsByName self !! "chr1"%string = None
  /\ BlockView.pending q = []
  /\ BlockView.trace q
     = [ BlockView.complete; BlockView.bbi_read 48 0;
         BlockView.cache_get 36 48; BlockView.complete ]
  /\ List.filter Observer.fetches (BlockView.trace q)
     = [ BlockView.cache_get 36 48 ].
Proof. repeat split; vm_compute; reflexivity. Qed.

(** C3. A query for a reference name that [refsByName] lacks makes two
    terminal callbacks: the [complete] of the first lines of [readWigData]
    and the [complete] of [readFeatures]. *)
Theorem unknown_reference_completes_twice :
  let self := Sample.view Sample.fstepBlock {[ "chr1"%string := 0 ]} in
  let q := BlockView.readWigData Sample.noInflate self "chr2" 0 1000 10 in
  BlockView.pending q = []
  /\ Observer.terminals (BlockView.trace q) = 2%nat.
Proof. split; vm_compute; reflexivity. Qed.

(** X1. For a reference name that [refsByName] knows, a query makes at most
    one terminal callback, however far the scheduler gets. *)
Theorem known_reference_one_terminal
    (inflateSync : Buffer.t -> result Buffer.t) (self : BlockView.t)
    (refName : string) (chrId : Z) (from to : Z) (n : nat) :
  BlockView.refsByName self !! refName = Some chrId ->
  (Observer.terminals
     (BlockView.trace (BlockView.readWigData inflateSync self refName from to n))
   <= 1)%nat.
Proof.
  intros Hknown.
  rewrite SchedulerFacts.terminals_callbacks.
  destruct (SchedulerFacts.readWigData_callbacks inflateSync self refName
              from to n) as [[Hcalls _]|[Hcalls _]];
    rewrite Hcalls, Hknown; simpl; unfold Observer.terminals; simpl; lia.
Qed.

Lemma known_reference_one_terminal_witness :
  let self := Sample.view Sample.fstepBlock {[ "chr1"%string := 0 ]} in
  BlockView.refsByName self !! "chr1"%string = Some 0
  /\ (Observer.terminals
        (BlockView.trace
           (BlockView.readWigData Sample.noInflate self "chr1" 12 14 10))
      <= 1)%nat.
Proof.
  intros self.
  assert (BlockView.refsByName self !! "chr1"%string = Some 0) as H
    by reflexivity.
  split; [exact H|].
  exact (known_reference_one_terminal Sample.noInflate self "chr1" 0 12 14 10 H).
Defined.



(** X24. What the observer of a query sees: the [complete] of an unknown
    reference name, then calls of [next], then at most one [complete], and
    nothing after it; [error] is never called. *)
Theorem observer_protocol (inflateSync : Buffer.t -> result Buffer.t)
    (self : BlockView.t) (refName : string) (from to : Z) (n : nat) :
  exists batches final,
    Protocol.callbacks
      (BlockView.trace (BlockView.readWigData inflateSync self refName from to n))
    = match BlockView.refsByName self !! refName with
      | None => [BlockView.complete]
      | Some _ => []
      end ++ (BlockView.next <$> batches) ++ final
    /\ (final = [] \/ final = [BlockView.complete]).
Proof.
  destruct (SchedulerFacts.readWigData_callbacks inflateSync self refName
              from to n) as [[Hcalls _]|[Hcalls _]].
  - exists [], []. rewrite Hcalls. simpl. rewrite app_nil_r. by split; [|left].
  - exists [], [BlockView.complete]. rewrite Hcalls. by split; [|right].
Qed.


(** X26. For a reference name that [refsByName] knows, a query that has
    collected a data block never calls the observer, neither [next] nor
    [complete]: a query completes only when the walk of the index has found
    no block for the request. *)
Theorem selected_blocks_never_complete
    (inflateSync : Buffer.t -> result Buffer.t) (self : BlockView.t)
    (refName : string) (chrId : Z) (from to : Z) (n : nat) :
  let q := BlockView.readWigData inflateSync self refName from to n in
  BlockView.refsByName self !! refName = Some chrId ->
  BlockView.blocksToFetch q <> [] ->
  Protocol.callbacks (BlockView.trace q) = [].
Proof.
  intros q Hknown Hblocks. subst q.
  destruct (SchedulerFacts.readWigData_callbacks inflateSync self refName
              from to n) as [[Hcalls _]|[_ Hnone]]; [|done].
  by rewrite Hcalls, Hknown.
Qed.

Lemma selected_blocks_never_complete_witness :
  let self := Sample.view Sample.fstepBlock {[ "chr1"%string := 0 ]} in
  let q := BlockView.readWigData Sample.noInflate self "chr1" 12 14 10 in
  (BlockView.refsByName self !! "chr1"%string = Some 0
   /\ BlockView.blocksToFetch q <> [])
  /\ BlockView.pending q = []
  /\ In (BlockView.rejected TypeError) (BlockView.trace q)
  /\ Protocol.callbacks (BlockView.trace q) = [].
Proof.
  intros self q.
  assert (BlockView.refsByName self !! "chr1"%string = Some 0) as H1
    by reflexivity.
  assert (BlockView.blocksToFetch q <> []) as H2 by (vm_compute; discriminate).
  split; [exact (conj H1 H2)|]. split; [vm_compute; reflexivity|].
  split; [vm_compute; tauto|].
  exact (selected_blocks_never_complete Sample.noInflate self "chr1" 0 12 14 10
           H1 H2).
Defined.

(** ** An index of more than one level *)

Module GrowthFacts.
Import BlockView TraceFacts.

Lemma round_small z : - 2 ^ 53 < z < 2 ^ 53 -> Number.round z = z.
Proof.
  intros Hz. unfold Number.round.
  destruct (Z.ltb_spec (Z.abs z) (2 ^ 53)); [done|lia].
Qed.

Lemma grows_refl q : grows q q.
Proof. exists []. by rewrite app_nil_r. Qed.

Lemma grows_same q q' : trace q' = trace q -> grows q q'.
Proof. intros Hq. exists []. by rewrite app_nil_r. Qed.

Lemma grows_trans q1 q2 q3 : grows q1 q2 -> grows q2 q3 -> grows q1 q3.
Proof.
  intros [evs1 H1] [evs2 H2]. exists (evs1 ++ evs2).
  by rewrite H2, H1, app_assoc.
Qed.

Lemma grows_emit q evs : grows q (emit q evs).
Proof. by exists evs. Qed.

Lemma grows_In q q' ev : grows q q' -> In ev (trace q) -> In ev (trace q').
Proof. intros [evs ->] Hin. apply in_or_app. by left. Qed.

Section Walk.
Variable inflateSync : Buffer.t -> result Buffer.t.
Variable self : t.
Variable request : CoordRequest.
Variable cirBlockSize : Z.

Lemma cirFobRecur_grows o os level q :
  grows q (fst (cirFobRecur cirBlockSize o os level q)).
Proof.
  destruct os as [|o' os].
  - rewrite SchedulerFacts.cirFobRecur_one. by eexists.
  - rewrite SchedulerFacts.cirFobRecur_many. exists []. simpl.
    by rewrite app_nil_r.
Qed.

Lemma cirFobRecur2_grows cirBlockData offset level q :
  grows q
    (fst (cirFobRecur2 self request cirBlockSize cirBlockData offset level q)).
Proof.
  unfold cirFobRecur2.
  destruct (Parser.parse _ _) as [[[entries|entries] n]|]; simpl.
  - exists []. simpl. by rewrite app_nil_r.
  - destruct (List.map _ _) as [|o os];
      [apply grows_refl|apply cirFobRecur_grows].
  - apply grows_refl.
Qed.

Lemma visitOffsets_grows f resultBuffer off : forall q,
  grows q (fst (visitOffsets inflateSync self request cirBlockSize
                             f resultBuffer off q)).
Proof.
  induction off as [|o off IH]; intros q; simpl; [apply grows_refl|].
  destruct (Range.contains (f_fr f) o); [|apply IH].
  pose proof (cirFobRecur2_grows resultBuffer (Number.round (o - f_offset f))
                (f_level f) q) as Hg.
  destruct (cirFobRecur2 _ _ _ _ _ _ _) as [q1 [e|]]; simpl in *; [done|].
  eapply grows_trans; [exact Hg|]. eapply grows_trans; [|apply IH].
  simpl. destruct (_ =? 0); [|by apply grows_same].
  destruct (readFeatures _ _ _ _) as [evs blocks]. by exists evs.
Qed.

Lemma resume_grows f q :
  grows q (resume inflateSync self request cirBlockSize f q).
Proof.
  unfold resume. destruct (fill _ _ _) as [resultBuffer|e];
    [|apply grows_emit].
  pose proof (visitOffsets_grows f resultBuffer (f_off f) q) as Hg.
  destruct (visitOffsets _ _ _ _ _ _ _ _) as [q' [e|]]; simpl in Hg.
  - eapply grows_trans; [exact Hg|apply grows_emit].
  - destruct (_ =? 0); [done|].
    eapply grows_trans; [exact Hg|apply grows_emit].
Qed.

Lemma run_grows n : forall q,
  grows q (run inflateSync self request cirBlockSize n q).
Proof.
  induction n as [|n IH]; intros q; simpl; [apply grows_refl|].
  destruct (pending q) as [|f fs]; [apply grows_refl|].
  eapply grows_trans; [|apply IH].
  eapply grows_trans; [|apply resume_grows]. by apply grows_same.
Qed.

Lemma run_S n q f fs :
  pending q = f :: fs ->
  run inflateSync self request cirBlockSize (S n) q
  = run inflateSync self request cirBlockSize n
      (resume inflateSync self request cirBlockSize f
         (mkQuery (blocksToFetch q) (outstanding q) fs (trace q))).
Proof. intros Hq. simpl. by rewrite Hq. Qed.

(** With no fetch in flight the scheduler has nothing to do. *)
Lemma run_idle n q :
  pending q = [] -> run inflateSync self request cirBlockSize n q = q.
Proof. intros Hq. destruct n; simpl; [done|]. by rewrite Hq. Qed.

End Walk.

(** The first turn of the scheduler: the fetch of the root node, when the
    offsets are below 2^53 and the node is an inner node. *)
Lemma root_turn inflateSync self request (cirBlockSize : Z) early
    (node : Buffer.t) (entries : list CirEntry) (k : Z) :
  let root := cirTreeOffset self + 48 in
  let span := 4 + cirBlockSize * 32 in
  let f := mkFetch [root] (Range.new root (root + span)) 1 span root in
  0 <= cirBlockSize -> root + span < 2 ^ 53 ->
  fill (bbi self) (Some span) root = Ok node ->
  Parser.parse (leafParser (isBigEndian self)) node
  = Ok (CirNode.recurOffsets entries, k) ->
  cirFobRecur cirBlockSize (Number.round root) [] 1 (mkQuery [] 0 [] early)
  = (mkQuery [] 1 [f] (early ++ [cache_get span root]), None)
  /\ resume inflateSync self request cirBlockSize f
       (mkQuery [] 1 [] (early ++ [cache_get span root]))
     = match List.map blockOffset
               (List.filter (filterFeats request) entries) with
       | [] =>
           mkQuery [] 0 [] (early ++ [cache_get span root; complete])
       | [o] =>
           let hi := Number.round (o + span) in
           mkQuery [] 1
             [mkFetch [o] (Range.new o hi) 2 (Number.round (hi - o)) o]
             (early ++ [cache_get span root;
                        cache_get (Number.round (hi - o)) o;
                        rejected DidNotComplete])
       | o :: o' :: os =>
           mkQuery [] (3 + Z.of_nat (length os)) []
             (early ++ [cache_get span root; rejected TypeError])
       end.
Proof.
  intros root span f Hsize Hbound Hnode Hparse.
  assert (0 <= root) as Hroot.
  { unfold fill in Hnode. destruct (span <? 0); [done|].
    unfold readAt in Hnode. destruct (Z.ltb_spec root 0); [done|lia]. }
  assert (Number.round root = root) as Hr1 by (apply round_small; lia).
  assert (Number.round (root + span) = root + span) as Hr2
    by (apply round_small; lia).
  assert (Number.round (root + span - root) = span) as Hr3
    by (rewrite round_small; lia).
  split.
  - rewrite SchedulerFacts.cirFobRecur_one. cbv zeta. fold span.
    by rewrite Hr1, Hr2, Hr3.
  - unfold resume. simpl f_length. simpl f_offset. rewrite Hnode.
    simpl visitOffsets.
    assert (Range.contains (Range.new root (root + span)) root = true) as ->.
    { unfold Range.contains. cbn [Range.ranges Range.new existsb].
      cbn [Range.r_min Range.r_max]. rewrite orb_false_r.
      apply andb_true_iff. split; [apply Z.leb_le|apply Z.geb_le]; lia. }
    unfold cirFobRecur2. rewrite Z.sub_diag.
    change (Number.round 0) with 0. rewrite DecoderFacts.slice_0, Hparse.
    destruct (List.map blockOffset (List.filter (filterFeats request) entries))
      as [|o [|o' os]].
    + simpl. by rewrite <- app_assoc.
    + rewrite SchedulerFacts.cirFobRecur_one. simpl. unfold emit.
      cbn [blocksToFetch outstanding pending trace].
      rewrite <- !app_assoc. reflexivity.
    + rewrite SchedulerFacts.cirFobRecur_many. simpl. unfold emit.
      cbn [blocksToFetch outstanding pending trace].
      rewrite <- app_assoc. f_equal. lia.
Qed.

End GrowthFacts.

(** X29. When the root of the index is an inner node and one of its
    entries passes [filterFeats], the fetch of the root ends with
    [Error('did not complete')]: the child it has found is still to be
    visited when its loop is over.  (Offsets below 2^53.) *)
Theorem inner_root_rejects (inflateSync : Buffer.t -> result Buffer.t)
    (self : BlockView.t) (refName : string) (from to : Z) (n : nat)
    (buffer node : Buffer.t) (entries : list CirEntry) (k : Z)
    (entry : CirEntry) :
  let request := mkRequest (BlockView.refsByName self !! refName) from to in
  let cirBlockSize :=
    Buffer.value (BlockView.isBigEndian self) (take 4 (drop 4 buffer)) in
  let root := BlockView.cirTreeOffset self + 48 in
  root + (4 + cirBlockSize * 32) < 2 ^ 53 ->
  BlockView.readAt (BlockView.bbi self) 48 (BlockView.cirTreeOffset self)
  = Ok buffer ->
  BlockView.fill (BlockView.bbi self) (Some (4 + cirBlockSize * 32)) root
  = Ok node ->
  Parser.parse (leafParser (BlockView.isBigEndian self)) node
  = Ok (CirNode.recurOffsets entries, k) ->
  List.filter (BlockView.filterFeats request) entries = [entry] ->
  In (BlockView.rejected DidNotComplete)
     (BlockView.trace
        (BlockView.readWigData inflateSync self refName from to (S n))).
Proof.
  intros request cirBlockSize root Hbound Hheader Hnode Hparse Hentries.
  unfold BlockView.readWigData. rewrite Hheader. fold cirBlockSize request.
  pose proof (ParserFacts.value_range (BlockView.isBigEndian self)
                (take 4 (drop 4 buffer))) as Hsize. fold cirBlockSize in Hsize.
  destruct (GrowthFacts.root_turn inflateSync self request cirBlockSize
              (match BlockView.refsByName self !! refName with
               | None => [BlockView.complete]
               | Some _ => []
               end ++ [BlockView.bbi_read 48 (BlockView.cirTreeOffset self)])
              node entries k ltac:(lia) Hbound Hnode Hparse) as [Hstart Hturn].
  rewrite Hentries in Hturn. simpl in Hturn.
  cbv zeta in Hstart, Hturn. subst root. rewrite Hstart.
  erewrite GrowthFacts.run_S; [|reflexivity].
  eapply GrowthFacts.grows_In; [apply GrowthFacts.run_grows|].
  cbn [BlockView.blocksToFetch BlockView.outstanding BlockView.trace].
  rewrite Hturn. simpl. apply in_or_app. right. simpl. tauto.
Qed.

Lemma inner_root_rejects_witness :
  let self := BlockView.mkView (Sample.twoLevelFile Sample.fstepBlock)
                {[ "chr1"%string := 0 ]} 0 false false "bigwig" in
  let buffer := take 48 (Sample.twoLevelFile Sample.fstepBlock) in
  let node := take 68 (drop 48 (Sample.twoLevelFile Sample.fstepBlock)) in
  let entry := mkEntry 0 0 0 1000 76 None in
  let request := mkRequest (BlockView.refsByName self !! "chr1"%string) 12 14 in
  let cirBlockSize :=
    Buffer.value (BlockView.isBigEndian self) (take 4 (drop 4 buffer)) in
  let root := BlockView.cirTreeOffset self + 48 in
  (root + (4 + cirBlockSize * 32) < 2 ^ 53
   /\ BlockView.readAt (BlockView.bbi self) 48 (BlockView.cirTreeOffset self)
      = Ok buffer
   /\ BlockView.fill (BlockView.bbi self) (Some (4 + cirBlockSize * 32)) root
      = Ok node
   /\ Parser.parse (leafParser (BlockView.isBigEndian self)) node
      = Ok (CirNode.recurOffsets [entry], 28)
   /\ List.filter (BlockView.filterFeats request) [entry] = [entry])
  /\ BlockView.trace (BlockView.readWigData Sample.noInflate self "chr1" 12 14 10)
     = [ BlockView.bbi_read 48 0; BlockView.cache_get 68 48;
         BlockView.cache_get 68 76; BlockView.rejected DidNotComplete;
         BlockView.rejected TypeError ]
  /\ In (BlockView.rejected DidNotComplete)
        (BlockView.trace
           (BlockView.readWigData Sample.noInflate self "chr1" 12 14 1)).
Proof.
  intros self buffer node entry request cirBlockSize root.
  assert (root + (4 + cirBlockSize * 32) < 2 ^ 53) as H0
    by (vm_compute; reflexivity).
  assert (BlockView.readAt (BlockView.bbi self) 48 (BlockView.cirTreeOffset self)
          = Ok buffer) as H1 by (vm_compute; reflexivity).
  assert (BlockView.fill (BlockView.bbi self) (Some (4 + cirBlockSize * 32))
                         root = Ok node) as H2
    by (vm_compute; reflexivity).
  assert (Parser.parse (leafParser (BlockView.isBigEndian self)) node
          = Ok (CirNode.recurOffsets [entry], 28)) as H3
    by (vm_compute; reflexivity).
  assert (List.filter (BlockView.filterFeats request) [entry] = [entry]) as H4
    by (vm_compute; reflexivity).
  split; [exact (conj H0 (conj H1 (conj H2 (conj H3 H4))))|].
  split; [vm_compute; reflexivity|].
  exact (inner_root_rejects Sample.noInflate self "chr1" 12 14 0 buffer node
           [entry] 28 entry H0 H1 H2 H3 H4).
Defined.

(** X27. When the root of the index is an inner node and two or more of
    its entries pass [filterFeats], the query stops in the fetch of the
    root: [cirFobRecur] has counted the children in [outstanding] when
    [Range.union] throws its TypeError, no child is fetched, and the
    observer hears nothing more.  (Offsets below 2^53.) *)
Theorem wide_inner_root_stalls (inflateSync : Buffer.t -> result Buffer.t)
    (self : BlockView.t) (refName : string) (from to : Z) (n : nat)
    (buffer node : Buffer.t) (entries : list CirEntry) (k : Z)
    (first second : CirEntry) (others : list CirEntry) :
  let request := mkRequest (BlockView.refsByName self !! refName) from to in
  let cirBlockSize :=
    Buffer.value (BlockView.isBigEndian self) (take 4 (drop 4 buffer)) in
  let root := BlockView.cirTreeOffset self + 48 in
  let q := BlockView.readWigData inflateSync self refName from to (S n) in
  root + (4 + cirBlockSize * 32) < 2 ^ 53 ->
  BlockView.readAt (BlockView.bbi self) 48 (BlockView.cirTreeOffset self)
  = Ok buffer ->
  BlockView.fill (BlockView.bbi self) (Some (4 + cirBlockSize * 32)) root
  = Ok node ->
  Parser.parse (leafParser (BlockView.isBigEndian self)) node
  = Ok (CirNode.recurOffsets entries, k) ->
  List.filter (BlockView.filterFeats request) entries
  = first :: second :: others ->
  BlockView.trace q
  = match BlockView.refsByName self !! refName with
    | None => [BlockView.complete]
    | Some _ => []
    end ++ [ BlockView.bbi_read 48 (BlockView.cirTreeOffset self);
             BlockView.cache_get (4 + cirBlockSize * 32) root;
             BlockView.rejected TypeError ]
  /\ BlockView.pending q = []
  /\ BlockView.outstanding q = 3 + Z.of_nat (length others).
Proof.
  intros request cirBlockSize root q Hbound Hheader Hnode Hparse Hentries.
  subst q. unfold BlockView.readWigData. rewrite Hheader.
  fold cirBlockSize request.
  pose proof (ParserFacts.value_range (BlockView.isBigEndian self)
                (take 4 (drop 4 buffer))) as Hsize. fold cirBlockSize in Hsize.
  destruct (GrowthFacts.root_turn inflateSync self request cirBlockSize
              (match BlockView.refsByName self !! refName with
               | None => [BlockView.complete]
               | Some _ => []
               end ++ [BlockView.bbi_read 48 (BlockView.cirTreeOffset self)])
              node entries k ltac:(lia) Hbound Hnode Hparse) as [Hstart Hturn].
  rewrite Hentries in Hturn. simpl in Hturn.
  cbv zeta in Hstart, Hturn. subst root. rewrite Hstart.
  erewrite GrowthFacts.run_S; [|reflexivity].
  cbn [BlockView.blocksToFetch BlockView.outstanding BlockView.trace].
  rewrite Hturn. rewrite GrowthFacts.run_idle by done. simpl.
  rewrite length_map. by rewrite <- app_assoc.
Qed.

Lemma wide_inner_root_stalls_witness :
  let self := BlockView.mkView Sample.wideFile {[ "chr1"%string := 0 ]}
                               0 false false "bigwig" in
  let buffer := take 48 Sample.wideFile in
  let node := drop 48 Sample.wideFile ++ replicate 16 Byte.x00 in
  let first := mkEntry 0 0 0 1000 100 None in
  let second := mkEntry 0 1000 0 2000 200 None in
  let request :=
    mkRequest (BlockView.refsByName self !! "chr1"%string) 900 1100 in
  let cirBlockSize :=
    Buffer.value (BlockView.isBigEndian self) (take 4 (drop 4 buffer)) in
  let root := BlockView.cirTreeOffset self + 48 in
  let q := BlockView.readWigData Sample.noInflate self "chr1" 900 1100 5 in
  (root + (4 + cirBlockSize * 32) < 2 ^ 53
   /\ BlockView.readAt (BlockView.bbi self) 48 (BlockView.cirTreeOffset self)
      = Ok buffer
   /\ BlockView.fill (BlockView.bbi self) (Some (4 + cirBlockSize * 32)) root
      = Ok node
   /\ Parser.parse (leafParser (BlockView.isBigEndian self)) node
      = Ok (CirNode.recurOffsets [first; second], 52)
   /\ List.filter (BlockView.filterFeats request) [first; second]
      = [first; second])
  /\ BlockView.trace q
     = [ BlockView.bbi_read 48 0; BlockView.cache_get 68 48;
         BlockView.rejected TypeError ]
  /\ BlockView.pending q = []
  /\ BlockView.outstanding q = 3.
Proof.
  intros self buffer node first second request cirBlockSize root q.
  assert (root + (4 + cirBlockSize * 32) < 2 ^ 53) as H0
    by (vm_compute; reflexivity).
  assert (BlockView.readAt (BlockView.bbi self) 48 (BlockView.cirTreeOffset self)
          = Ok buffer) as H1 by (vm_compute; reflexivity).
  assert (BlockView.fill (BlockView.bbi self) (Some (4 + cirBlockSize * 32))
                         root = Ok node) as H2
    by (vm_compute; reflexivity).
  assert (Parser.parse (leafParser (BlockView.isBigEndian self)) node
          = Ok (CirNode.recurOffsets [first; second], 52)) as H3
    by (vm_compute; reflexivity).
  assert (List.filter (BlockView.filterFeats request) [first; second]
          = [first; second]) as H4
    by (vm_compute; reflexivity).
  split; [exact (conj H0 (conj H1 (conj H2 (conj H3 H4))))|].
  exact (wide_inner_root_stalls Sample.noInflate self "chr1" 900 1100 4
           buffer node [first; second] 52 first second [] H0 H1 H2 H3 H4).
Defined.

(** ** The groups of groupBlocks *)

Module GroupingFacts.
Import Grouping.

Section Sort.
Context {A : Type} (comparefn : A -> A -> Z).

(** An element that is not smaller than the last one of the sorted prefix
    stays where it is. *)
Lemma insert_head element prefix :
  (forall tmp, head prefix = Some tmp -> comparefn tmp element <= 0) ->
  JsArray.insert comparefn element prefix = element :: prefix.
Proof.
  destruct prefix as [|tmp prefix]; [done|]. intros H. simpl.
  specialize (H tmp eq_refl).
  destruct (Z.gtb_spec (comparefn tmp element) 0); [lia|done].
Qed.

Lemma fold_insert_ordered a : forall prefix,
  StronglySorted (fun x y => comparefn x y <= 0) (rev prefix ++ a) ->
  fold_left (fun prefix element => JsArray.insert comparefn element prefix)
            a prefix
  = rev a ++ prefix.
Proof.
  induction a as [|x a IH]; intros prefix Hsorted; simpl; [done|].
  rewrite insert_head.
  - rewrite IH; [by rewrite <- app_assoc|]. simpl.
    by rewrite <- app_assoc.
  - intros tmp Htmp. destruct prefix as [|t prefix]; [done|].
    injection Htmp as ->. simpl in Hsorted. rewrite <- app_assoc in Hsorted.
    apply StronglySorted_app_1_r in Hsorted.
    inversion Hsorted as [|? ? _ Hall]; subst.
    by inversion Hall.
Qed.

Lemma sort_ordered a :
  StronglySorted (fun x y => comparefn x y <= 0) a ->
  JsArray.sort comparefn a = a.
Proof.
  intros Hsorted. unfold JsArray.sort.
  rewrite fold_insert_ordered by done. by rewrite app_nil_r, rev_involutive.
Qed.
End Sort.

Lemma sorted_impl {A} (R Q : A -> A -> Prop) l :
  (forall x y, R x y -> Q x y) -> StronglySorted R l -> StronglySorted Q l.
Proof.
  intros HRQ. induction 1 as [|x l Hl IH Hall]; constructor; [done|].
  eapply Forall_impl; [exact Hall|]. apply HRQ.
Qed.

Lemma sort_sort blocks :
  JsArray.sort Util.byOffset (JsArray.sort Util.byOffset blocks)
  = JsArray.sort Util.byOffset blocks.
Proof.
  apply sort_ordered.
  eapply sorted_impl; [|apply UtilFacts.sorted_by_ToInt32].
  intros b0 b1 H. simpl in H.
  destruct (Z.lt_ge_cases 0 (Util.byOffset b0 b1)) as [Hlt|]; [|lia].
  apply UtilFacts.byOffset_key in Hlt. lia.
Qed.








(** Blocks whose ends are in the order of their offsets. *)
Section Ordered.
Variable threshold : Z.

End Ordered.

End GroupingFacts.





(** X14. Calling [groupBlocks] on the array that a first call has sorted
    leaves the array as it is and returns the same groups. *)
Theorem groupBlocks_again (blocks : list Block.t) :
  Util.groupBlocks (snd (Util.groupBlocks blocks)) = Util.groupBlocks blocks.
Proof.
  unfold Util.groupBlocks. simpl. by rewrite GroupingFacts.sort_sort.
Qed.

(** Without that order the size of a group can shrink below its first
    block: a block nested in the one before it. *)
Example groupBlocks_nested :
  fst (Util.groupBlocks [Block.mk 0 100; Block.mk 10 5])
  = [Group.mk [Block.mk 0 100; Block.mk 10 5] 15 0].
Proof. vm_compute. reflexivity. Qed.

(** ** The caller's array *)

Module ArgumentFacts.



End ArgumentFacts.




(** The order of the caller's array changes when it does not ascend. *)
Example groupBlocks_reorders_sample :
  snd (Util.groupBlocks [Block.mk 1300 100; Block.mk 10000 50; Block.mk 1000 200])
  = [Block.mk 1000 200; Block.mk 1300 100; Block.mk 10000 50].
Proof. vm_compute. reflexivity. Qed.

(** ** The layout of the data blocks *)

Module LayoutFacts.
Import Reads ParserFacts DecoderFacts.

(** [array] on whole records decodes each record by itself. *)
Lemma array_map {A} n (p : Parser.t A) (f : Buffer.t -> A) :
  (forall r more, length r = n -> p (r ++ more) = Ok (f r, more)) ->
  forall recs more, Forall (fun r => length r = n) recs ->
  Parser.array (length recs) p (concat recs ++ more) = Ok (f <$> recs, more).
Proof.
  intros Hp recs more. induction 1 as [|r recs Hr Hrecs IH]; [done|].
  simpl. unfold Parser.bind at 1. rewrite <- app_assoc, (Hp r _ Hr).
  unfold Parser.bind. by rewrite IH.
Qed.

(** [array] on a buffer that is too short for its records. *)
Lemma array_short {A} n (p : Parser.t A) P :
  yields n p P -> forall k buf, (length buf < k * n)%nat ->
  Parser.array k p buf = Throw RangeError.
Proof.
  intros [Hp Hshort] k. induction k as [|k IH]; intros buf Hlen; [simpl in *; lia|].
  simpl. unfold Parser.bind at 1.
  destruct (decide (length buf < n)%nat) as [Hlt|Hge].
  - by rewrite Hshort.
  - destruct (Hp (take n buf)) as (a & _ & Hrun); [rewrite length_take; lia|].
    rewrite <- (take_drop n buf) at 1. rewrite Hrun.
    unfold Parser.bind. rewrite IH; [done|]. rewrite length_drop. simpl in Hlen. lia.
Qed.

Lemma yields_fstepItem : yields 4 fstepItem (fun _ => True).
Proof.
  unfold fstepItem. change 4%nat with (4 + 0)%nat.
  eapply yields_bind; [apply yields_float|intros score _].
  by apply yields_ret.
Qed.

Lemma yields_vstepItem : yields 8 vstepItem (fun _ => True).
Proof.
  unfold vstepItem. change 8%nat with (4 + (4 + 0))%nat.
  eapply yields_bind; [apply yields_int32|intros start _].
  eapply yields_bind; [apply yields_float|intros score _].
  by apply yields_ret.
Qed.

Lemma yields_graphItem : yields 12 graphItem (fun _ => True).
Proof.
  unfold graphItem. change 12%nat with (4 + (4 + (4 + 0)))%nat.
  eapply yields_bind; [apply yields_int32|intros start _].
  eapply yields_bind; [apply yields_int32|intros end_ _].
  eapply yields_bind; [apply yields_float|intros score _].
  by apply yields_ret.
Qed.

(** The 24 bytes of the header, in the byte order of the view, then the
    items that its type byte selects. *)
Lemma bigWigParser_header be (hdr rest : Buffer.t) :
  length hdr = 24%nat ->
  let header :=
    mkWigHeader (Buffer.to_int32 (Buffer.value be (take 4 (drop 4 hdr))))
                (Buffer.value be (take 4 (drop 12 hdr)))
                (Buffer.value be (take 4 (drop 16 hdr)))
                (Buffer.value false (take 1 (drop 20 hdr)))
                (Buffer.value be (take 2 (drop 22 hdr))) in
  bigWigParser be (hdr ++ rest)
  = (if blockType header =? BIG_WIG_TYPE_FSTEP then
       Parser.bind (Parser.array (Z.to_nat (itemCount header)) fstepItem)
                   (fun items => Parser.ret (header, items))
     else if blockType header =? BIG_WIG_TYPE_VSTEP then
       Parser.bind (Parser.array (Z.to_nat (itemCount header)) vstepItem)
                   (fun items => Parser.ret (header, items))
     else if blockType header =? BIG_WIG_TYPE_GRAPH then
       Parser.bind (Parser.array (Z.to_nat (itemCount header)) graphItem)
                   (fun items => Parser.ret (header, items))
     else Parser.fail (UndefinedTag (blockType header))) rest.
Proof.
  intros Hlen.
  do 24 (destruct hdr as [|? hdr]; [simpl in Hlen; lia|]).
  destruct hdr; [|simpl in Hlen; lia]. reflexivity.
Qed.

Lemma type_byte (bytes : Buffer.t) t :
  Buffer.byte_val <$> bytes !! 20%nat = Some t ->
  Buffer.value false (take 1 (drop 20 (take 24 bytes))) = t.
Proof.
  do 21 (destruct bytes as [|? bytes]; [done|]). simpl.
  intros [= <-]. unfold Buffer.value. simpl. lia.
Qed.

Lemma header_short be (bytes : Buffer.t) :
  (length bytes < 24)%nat -> bigWigParser be bytes = Throw RangeError.
Proof.
  intros Hlen.
  do 24 (destruct bytes as [|? bytes]; [reflexivity|]).
  simpl in Hlen. lia.
Qed.

End LayoutFacts.

Module WigFacts.
Import Reads ParserFacts DecoderFacts LayoutFacts.

Lemma fstepItem_record (r more : Buffer.t) :
  length r = 4%nat ->
  fstepItem (r ++ more)
  = Ok (item None None (Buffer.float_of_bits32 (Buffer.value false r)), more).
Proof.
  intros Hlen. do 4 (destruct r as [|? r]; [simpl in Hlen; lia|]).
  destruct r; [|simpl in Hlen; lia]. reflexivity.
Qed.

Lemma vstepItem_record (r more : Buffer.t) :
  length r = 8%nat ->
  vstepItem (r ++ more)
  = Ok (item (Some (Buffer.to_int32 (Buffer.value false (take 4 r)))) None
             (Buffer.float_of_bits32 (Buffer.value false (drop 4 r))), more).
Proof.
  intros Hlen. do 8 (destruct r as [|? r]; [simpl in Hlen; lia|]).
  destruct r; [|simpl in Hlen; lia]. reflexivity.
Qed.

Lemma graphItem_record (r more : Buffer.t) :
  length r = 12%nat ->
  graphItem (r ++ more)
  = Ok (item (Some (Buffer.to_int32 (Buffer.value false (take 4 r))))
             (Some (Buffer.to_int32 (Buffer.value false (take 4 (drop 4 r)))))
             (Buffer.float_of_bits32 (Buffer.value false (drop 8 r))), more).
Proof.
  intros Hlen. do 12 (destruct r as [|? r]; [simpl in Hlen; lia|]).
  destruct r; [|simpl in Hlen; lia]. reflexivity.
Qed.

Lemma parse_block {A} (p : Parser.t A) (buf rest : Buffer.t) a :
  p buf = Ok (a, rest) ->
  Parser.parse p buf = Ok (a, Buffer.byteLength buf - Buffer.byteLength rest).
Proof. unfold Parser.parse. by intros ->. Qed.

Lemma type_byte_app (hdr rest : Buffer.t) t :
  length hdr = 24%nat ->
  Buffer.byte_val <$> hdr !! 20%nat = Some t ->
  Buffer.value false (take 1 (drop 20 hdr)) = t.
Proof.
  intros Hlen Ht. rewrite <- (type_byte hdr t Ht).
  by rewrite (take_ge hdr 24) by lia.
Qed.

End WigFacts.

(** X15. A bigWig block that is shorter than its 24-byte header, or than
    the header and the [itemCount] items that its type byte announces, makes
    [parseBigWigBlock] throw a [RangeError]. *)
Theorem wig_block_truncated be (bytes : Buffer.t) request :
  (length bytes < 24)%nat
  \/ (exists t,
        Buffer.byte_val <$> bytes !! 20%nat = Some t
        /\ (t = BIG_WIG_TYPE_GRAPH \/ t = BIG_WIG_TYPE_VSTEP
            \/ t = BIG_WIG_TYPE_FSTEP)
        /\ Z.of_nat (length bytes)
           < 24 + Buffer.value be (take 2 (drop 22 bytes)) * (4 * (4 - t))) ->
  BlockView.parseBigWigBlock be bytes 0 request = Throw RangeError.
Proof.
  intros H. unfold BlockView.parseBigWigBlock.
  rewrite DecoderFacts.slice_0. unfold Parser.parse.
  destruct (decide (length bytes < 24)%nat) as [Hshort|Hlong].
  { by rewrite LayoutFacts.header_short. }
  destruct H as [?|(t & Ht & Htype & Hlen)]; [lia|].
  rewrite <- (take_drop 24 bytes) at 1.
  rewrite LayoutFacts.bigWigParser_header by (rewrite length_take; lia).
  cbv zeta. cbn [blockType itemCount].
  rewrite (LayoutFacts.type_byte bytes t Ht).
  replace (take 2 (drop 22 (take 24 bytes))) with (take 2 (drop 22 bytes)).
  2:{ rewrite <- (take_drop 24 bytes) at 1.
      rewrite drop_app_le by (rewrite length_take; lia).
      rewrite take_app_le; [done|]. rewrite length_drop, length_take. lia. }
  pose proof (ParserFacts.value_range be (take 2 (drop 22 bytes))) as Hcnt.
  set (cnt := Buffer.value be (take 2 (drop 22 bytes))) in *.
  assert (length (drop 24 bytes) = (length bytes - 24)%nat) as Hrest
    by by rewrite length_drop.
  unfold BIG_WIG_TYPE_GRAPH, BIG_WIG_TYPE_VSTEP, BIG_WIG_TYPE_FSTEP in *.
  destruct Htype as [->|[->| ->]]; simpl; unfold Parser.bind.
  - rewrite (LayoutFacts.array_short 12 _ _ LayoutFacts.yields_graphItem);
      [done|lia].
  - rewrite (LayoutFacts.array_short 8 _ _ LayoutFacts.yields_vstepItem);
      [done|lia].
  - rewrite (LayoutFacts.array_short 4 _ _ LayoutFacts.yields_fstepItem);
      [done|lia].
Qed.

Lemma wig_block_truncated_witness :
  let bytes := take 30 Sample.fstepBlock in
  (exists t,
     Buffer.byte_val <$> bytes !! 20%nat = Some t
     /\ (t = BIG_WIG_TYPE_GRAPH \/ t = BIG_WIG_TYPE_VSTEP
         \/ t = BIG_WIG_TYPE_FSTEP)
     /\ Z.of_nat (length bytes)
        < 24 + Buffer.value false (take 2 (drop 22 bytes)) * (4 * (4 - t)))
  /\ BlockView.parseBigWigBlock false bytes 0 None = Throw RangeError.
Proof.
  intros bytes.
  assert (exists t,
            Buffer.byte_val <$> bytes !! 20%nat = Some t
            /\ (t = BIG_WIG_TYPE_GRAPH \/ t = BIG_WIG_TYPE_VSTEP
                \/ t = BIG_WIG_TYPE_FSTEP)
            /\ Z.of_nat (length bytes)
               < 24 + Buffer.value false (take 2 (drop 22 bytes)) * (4 * (4 - t)))
    as H.
  { exists 3. split; [reflexivity|]. split; [by right; right|].
    vm_compute. reflexivity. }
  split; [exact H|].
  exact (wig_block_truncated false bytes None (or_intror H)).
Defined.

(** X4. A fixed-step block: a 24-byte header with type byte 3, then
    [itemCount] scores of 4 bytes.  [itemCount], [itemStep] and [itemSpan]
    are read in the byte order of the view, the scores little-endian; the
    feature of the score at [index] runs from [index * itemStep] to
    [index * itemStep + itemSpan], whatever [blockStart] is. *)
Theorem fstep_block be (hdr : Buffer.t) (recs : list Buffer.t)
    (trailing : Buffer.t) request :
  length hdr = 24%nat ->
  Buffer.byte_val <$> hdr !! 20%nat = Some BIG_WIG_TYPE_FSTEP ->
  Buffer.value be (take 2 (drop 22 hdr)) = Z.of_nat (length recs) ->
  Forall (fun r => length r = 4%nat) recs ->
  BlockView.parseBigWigBlock be (hdr ++ concat recs ++ trailing) 0 request
  = Ok (BlockView.filterRequest request
          (imap (fun index r =>
                   let start :=
                     Z.of_nat index * Buffer.value be (take 4 (drop 12 hdr)) in
                   item (Some start)
                        (Some (start + Buffer.value be (take 4 (drop 16 hdr))))
                        (Buffer.float_of_bits32 (Buffer.value false r)))
                recs)).
Proof.
  intros Hlen Ht Hcnt Hrecs. unfold BlockView.parseBigWigBlock.
  rewrite DecoderFacts.slice_0.
  pose proof (LayoutFacts.bigWigParser_header be hdr
                (concat recs ++ trailing) Hlen) as Hhdr.
  cbv zeta in Hhdr. cbn [blockType itemCount] in Hhdr.
  rewrite (WigFacts.type_byte_app hdr trailing _ Hlen Ht), Hcnt, Nat2Z.id in Hhdr.
  simpl in Hhdr. unfold Parser.bind in Hhdr.
  rewrite (LayoutFacts.array_map 4 _ _ WigFacts.fstepItem_record _ _ Hrecs)
    in Hhdr.
  rewrite (WigFacts.parse_block _ _ _ _ Hhdr). simpl.
  do 2 f_equal. by rewrite imap_fmap.
Qed.

Lemma fstep_block_witness :
  let hdr :=
    Buffer.bytes true 4 0 ++ Buffer.bytes true 4 100 ++ Buffer.bytes true 4 120
    ++ Buffer.bytes true 4 10 ++ Buffer.bytes true 4 5
    ++ [Byte.x03; Byte.x00] ++ Buffer.bytes true 2 2 in
  let recs := [Sample.u32 0x3DCCCCCD; Sample.u32 0x3E4CCCCD] in
  (length hdr = 24%nat
   /\ Buffer.byte_val <$> hdr !! 20%nat = Some BIG_WIG_TYPE_FSTEP
   /\ Buffer.value true (take 2 (drop 22 hdr)) = Z.of_nat (length recs)
   /\ Forall (fun r => length r = 4%nat) recs)
  /\ BlockView.parseBigWigBlock true (hdr ++ concat recs ++ []) 0 None
     = Ok [ item (Some 0) (Some 5) (Buffer.float_of_bits32 0x3DCCCCCD);
            item (Some 10) (Some 15) (Buffer.float_of_bits32 0x3E4CCCCD) ].
Proof.
  intros hdr recs.
  assert (length hdr = 24%nat) as H1 by reflexivity.
  assert (Buffer.byte_val <$> hdr !! 20%nat = Some BIG_WIG_TYPE_FSTEP) as H2
    by reflexivity.
  assert (Buffer.value true (take 2 (drop 22 hdr)) = Z.of_nat (length recs))
    as H3 by reflexivity.
  assert (Forall (fun r => length r = 4%nat) recs) as H4
    by (repeat constructor).
  split; [exact (conj H1 (conj H2 (conj H3 H4)))|].
  exact (fstep_block true hdr recs [] None H1 H2 H3 H4).
Defined.

(** X16. A variable-step block: a 24-byte header with type byte 2, then
    [itemCount] records of 8 bytes, an [int32] start and a [float] score.
    [itemCount] and [itemSpan] are read in the byte order of the view, the
    records little-endian.  The feature of a record runs from its start to
    [start + itemSpan]; bytes after the last record are ignored. *)
Theorem vstep_block be (hdr : Buffer.t) (recs : list Buffer.t)
    (trailing : Buffer.t) request :
  length hdr = 24%nat ->
  Buffer.byte_val <$> hdr !! 20%nat = Some BIG_WIG_TYPE_VSTEP ->
  Buffer.value be (take 2 (drop 22 hdr)) = Z.of_nat (length recs) ->
  Forall (fun r => length r = 8%nat) recs ->
  BlockView.parseBigWigBlock be (hdr ++ concat recs ++ trailing) 0 request
  = Ok (BlockView.filterRequest request
          ((fun r =>
              let start := Buffer.to_int32 (Buffer.value false (take 4 r)) in
              item (Some start)
                   (Some (start + Buffer.value be (take 4 (drop 16 hdr))))
                   (Buffer.float_of_bits32 (Buffer.value false (drop 4 r))))
           <$> recs)).
Proof.
  intros Hlen Ht Hcnt Hrecs. unfold BlockView.parseBigWigBlock.
  rewrite DecoderFacts.slice_0.
  pose proof (LayoutFacts.bigWigParser_header be hdr
                (concat recs ++ trailing) Hlen) as Hhdr.
  cbv zeta in Hhdr. cbn [blockType itemCount] in Hhdr.
  rewrite (WigFacts.type_byte_app hdr trailing _ Hlen Ht), Hcnt, Nat2Z.id in Hhdr.
  simpl in Hhdr. unfold Parser.bind in Hhdr.
  rewrite (LayoutFacts.array_map 8 _ _ WigFacts.vstepItem_record _ _ Hrecs)
    in Hhdr.
  rewrite (WigFacts.parse_block _ _ _ _ Hhdr). simpl.
  do 2 f_equal. rewrite <- list_fmap_compose. done.
Qed.

Lemma vstep_block_witness :
  let hdr :=
    Buffer.bytes true 4 0 ++ Buffer.bytes true 4 100 ++ Buffer.bytes true 4 120
    ++ Buffer.bytes true 4 0 ++ Buffer.bytes true 4 5
    ++ [Byte.x02; Byte.x00] ++ Buffer.bytes true 2 2 in
  let recs := [Sample.u32 100 ++ Sample.u32 0x3DCCCCCD;
               Sample.u32 110 ++ Sample.u32 0x3E4CCCCD] in
  (length hdr = 24%nat
   /\ Buffer.byte_val <$> hdr !! 20%nat = Some BIG_WIG_TYPE_VSTEP
   /\ Buffer.value true (take 2 (drop 22 hdr)) = Z.of_nat (length recs)
   /\ Forall (fun r => length r = 8%nat) recs)
  /\ BlockView.parseBigWigBlock true (hdr ++ concat recs ++ [Byte.x07]) 0 None
     = Ok [ item (Some 100) (Some 105) (Buffer.float_of_bits32 0x3DCCCCCD);
            item (Some 110) (Some 115) (Buffer.float_of_bits32 0x3E4CCCCD) ].
Proof.
  intros hdr recs.
  assert (length hdr = 24%nat) as H1 by reflexivity.
  assert (Buffer.byte_val <$> hdr !! 20%nat = Some BIG_WIG_TYPE_VSTEP) as H2
    by reflexivity.
  assert (Buffer.value true (take 2 (drop 22 hdr)) = Z.of_nat (length recs))
    as H3 by reflexivity.
  assert (Forall (fun r => length r = 8%nat) recs) as H4
    by (repeat constructor).
  split; [exact (conj H1 (conj H2 (conj H3 H4)))|].
  exact (vstep_block true hdr recs [Byte.x07] None H1 H2 H3 H4).
Defined.

(** X17. A bedGraph block: a 24-byte header with type byte 1, then
    [itemCount] records of 12 bytes, an [int32] start, an [int32] end and a
    [float] score, which are the feature as they stand.  [itemCount] is
    read in the byte order of the view, the records little-endian. *)
Theorem graph_block be (hdr : Buffer.t) (recs : list Buffer.t)
    (trailing : Buffer.t) request :
  length hdr = 24%nat ->
  Buffer.byte_val <$> hdr !! 20%nat = Some BIG_WIG_TYPE_GRAPH ->
  Buffer.value be (take 2 (drop 22 hdr)) = Z.of_nat (length recs) ->
  Forall (fun r => length r = 12%nat) recs ->
  BlockView.parseBigWigBlock be (hdr ++ concat recs ++ trailing) 0 request
  = Ok (BlockView.filterRequest request
          ((fun r =>
              item (Some (Buffer.to_int32 (Buffer.value false (take 4 r))))
                   (Some (Buffer.to_int32
                            (Buffer.value false (take 4 (drop 4 r)))))
                   (Buffer.float_of_bits32 (Buffer.value false (drop 8 r))))
           <$> recs)).
Proof.
  intros Hlen Ht Hcnt Hrecs. unfold BlockView.parseBigWigBlock.
  rewrite DecoderFacts.slice_0.
  pose proof (LayoutFacts.bigWigParser_header be hdr
                (concat recs ++ trailing) Hlen) as Hhdr.
  cbv zeta in Hhdr. cbn [blockType itemCount] in Hhdr.
  rewrite (WigFacts.type_byte_app hdr trailing _ Hlen Ht), Hcnt, Nat2Z.id in Hhdr.
  simpl in Hhdr. unfold Parser.bind in Hhdr.
  rewrite (LayoutFacts.array_map 12 _ _ WigFacts.graphItem_record _ _ Hrecs)
    in Hhdr.
  rewrite (WigFacts.parse_block _ _ _ _ Hhdr). simpl. done.
Qed.

Lemma graph_block_witness :
  let hdr :=
    Buffer.bytes true 4 0 ++ Buffer.bytes true 4 100 ++ Buffer.bytes true 4 120
    ++ Buffer.bytes true 4 0 ++ Buffer.bytes true 4 0
    ++ [Byte.x01; Byte.x00] ++ Buffer.bytes true 2 1 in
  let recs := [Sample.u32 100 ++ Sample.u32 107 ++ Sample.u32 0x3DCCCCCD] in
  (length hdr = 24%nat
   /\ Buffer.byte_val <$> hdr !! 20%nat = Some BIG_WIG_TYPE_GRAPH
   /\ Buffer.value true (take 2 (drop 22 hdr)) = Z.of_nat (length recs)
   /\ Forall (fun r => length r = 12%nat) recs)
  /\ BlockView.parseBigWigBlock true (hdr ++ concat recs ++ []) 0 None
     = Ok [ item (Some 100) (Some 107) (Buffer.float_of_bits32 0x3DCCCCCD) ].
Proof.
  intros hdr recs.
  assert (length hdr = 24%nat) as H1 by reflexivity.
  assert (Buffer.byte_val <$> hdr !! 20%nat = Some BIG_WIG_TYPE_GRAPH) as H2
    by reflexivity.
  assert (Buffer.value true (take 2 (drop 22 hdr)) = Z.of_nat (length recs))
    as H3 by reflexivity.
  assert (Forall (fun r => length r = 12%nat) recs) as H4
    by (repeat constructor).
  split; [exact (conj H1 (conj H2 (conj H3 H4)))|].
  exact (graph_block true hdr recs [] None H1 H2 H3 H4).
Defined.

Module RecordFacts.
Import Reads ParserFacts DecoderFacts LayoutFacts Layout.

Lemma slice_shift (pre x : Buffer.t) k :
  0 <= k ->
  Buffer.slice (pre ++ x) (Z.of_nat (length pre) + k) = Buffer.slice x k.
Proof.
  intros Hk. unfold Buffer.slice, Buffer.byteLength.
  destruct (Z.ltb_spec (Z.of_nat (length pre) + k) 0); [lia|].
  destruct (Z.ltb_spec k 0); [lia|].
  rewrite length_app.
  replace (Z.to_nat (Z.min (Z.of_nat (length pre) + k)
                           (Z.of_nat (length pre + length x))))
    with (length pre + Z.to_nat (Z.min k (Z.of_nat (length x))))%nat by lia.
  apply drop_app_add.
Qed.

Lemma slice_end (data : Buffer.t) :
  Buffer.slice data (Buffer.byteLength data) = [].
Proof.
  rewrite <- (app_nil_r data) at 1. unfold Buffer.byteLength.
  apply slice_app_length.
Qed.

Section Records.
Context {A : Type} (parser : Parser.t A).
Hypothesis parser_progress : progress parser.

(** Decoding from [startOffset] is decoding the slice that starts there. *)
Lemma recordsLoop_shift (visit : Z -> A -> A) (pre x : Buffer.t) n :
  forall k items, 0 <= k ->
  BlockView.recordsLoop parser visit n (pre ++ x) (Z.of_nat (length pre) + k) items
  = BlockView.recordsLoop parser
      (fun o => visit (Z.of_nat (length pre) + o)) n x k items.
Proof.
  induction n as [|n IH]; intros k items Hk; [done|]. simpl.
  unfold Buffer.byteLength at 1. rewrite length_app.
  replace (Z.of_nat (length pre) + k <? Z.of_nat (length pre + length x))
    with (k <? Buffer.byteLength x)
    by (unfold Buffer.byteLength;
        destruct (Z.ltb_spec k (Z.of_nat (length x))),
                 (Z.ltb_spec (Z.of_nat (length pre) + k)
                             (Z.of_nat (length pre + length x))); lia).
  destruct (k <? Buffer.byteLength x); [|done].
  rewrite slice_shift by done.
  destruct (Parser.parse parser (Buffer.slice x k)) as [[res offset]|e] eqn:Hparse;
    [|done].
  simpl. apply (parse_offset_pos parser parser_progress) in Hparse.
  rewrite <- Z.add_assoc. apply IH. lia.
Qed.

Lemma records_shift (visit : Z -> A -> A) (pre x : Buffer.t) k items :
  0 <= k ->
  BlockView.records parser visit (pre ++ x) (Z.of_nat (length pre) + k) items
  = BlockView.records parser (fun o => visit (Z.of_nat (length pre) + o)) x k items.
Proof.
  intros Hk. unfold BlockView.records.
  replace (Buffer.byteLength (pre ++ x) - (Z.of_nat (length pre) + k))
    with (Buffer.byteLength x - k)
    by (unfold Buffer.byteLength; rewrite length_app; lia).
  by apply recordsLoop_shift.
Qed.

(** Whole records, then a record that is cut short. *)
Lemma records_partial (visit : Z -> A -> A) n (P : A -> Prop) :
  yields n parser P ->
  forall (recs : list Buffer.t) (pre tail : Buffer.t) items,
  Forall (fun r => length r = n) recs ->
  (0 < length tail < n)%nat ->
  BlockView.records parser visit (pre ++ concat recs ++ tail)
                    (Z.of_nat (length pre)) items
  = Throw RangeError.
Proof.
  intros Hy recs. induction recs as [|r recs IH]; intros pre tail items Hall Htail.
  - rewrite (records_unfold parser visit parser_progress). simpl.
    unfold Buffer.byteLength. rewrite length_app.
    destruct (Z.ltb_spec (Z.of_nat (length pre))
                (Z.of_nat (length pre + length tail))); [|lia].
    rewrite slice_app_length. unfold Parser.parse.
    destruct Hy as [_ Hshort]. rewrite Hshort by lia. done.
  - apply Forall_cons in Hall as [Hr Hall].
    destruct (parse_yields n parser P r (concat recs ++ tail) Hy Hr)
      as (elt & _ & Hparse & _).
    rewrite (records_unfold parser visit parser_progress). simpl concat.
    unfold Buffer.byteLength at 1. rewrite !length_app.
    destruct (Z.ltb_spec (Z.of_nat (length pre))
                (Z.of_nat (length pre
                           + (length r + length (concat recs) + length tail))));
      [|lia].
    rewrite <- (app_assoc r), slice_app_length, Hparse. simpl.
    specialize (IH (pre ++ r) tail
                   (items ++ [visit (Z.of_nat (length pre)) elt]) Hall Htail).
    rewrite <- app_assoc in IH. rewrite length_app, Hr in IH.
    replace (Z.of_nat (length pre) + Z.of_nat n)
      with (Z.of_nat (length pre + n)) by lia.
    exact IH.
Qed.

End Records.

(** The zero-terminated string. *)
Lemma zstring_terminated (s more : list byte) :
  Byte.x00 ∉ s -> Parser.zstring (s ++ Byte.x00 :: more) = Ok (s, more).
Proof.
  induction s as [|b s IH]; intros Hs; simpl; [done|].
  apply not_elem_of_cons in Hs as [Hb Hs].
  destruct (Byte.eqb b Byte.x00) eqn:Heq;
    [apply Byte.byte_dec_bl in Heq; congruence|].
  by rewrite IH.
Qed.

Lemma zstring_unterminated (s : list byte) :
  Byte.x00 ∉ s -> Parser.zstring s = Throw RangeError.
Proof.
  induction s as [|b s IH]; intros Hs; simpl; [done|].
  apply not_elem_of_cons in Hs as [Hb Hs].
  destruct (Byte.eqb b Byte.x00) eqn:Heq;
    [apply Byte.byte_dec_bl in Heq; congruence|].
  by rewrite IH.
Qed.

Lemma zstring_rest (buf s rest : list byte) :
  Parser.zstring buf = Ok (s, rest) -> Byte.x00 ∉ s.
Proof.
  revert s rest. induction buf as [|b buf IH]; intros s rest; simpl; [done|].
  destruct (Byte.eqb b Byte.x00) eqn:Heq.
  - intros [= <- _]. apply not_elem_of_nil.
  - destruct (Parser.zstring buf) as [[s' rest']|e]; [|done].
    intros [= <- _]. apply not_elem_of_cons. split.
    + intros <-. by apply Byte.eqb_false in Heq.
    + by eapply IH.
Qed.

Lemma bigBedParser_record be (rec : Buffer.t * list byte) (more : Buffer.t) :
  wellFormed rec ->
  exists f,
    bigBedParser be (bedRecord rec ++ more) = Ok (f, more)
    /\ forall startOffset currOffset,
         BlockView.setUniqueId startOffset currOffset f
         = bedFeature be rec (startOffset + currOffset).
Proof.
  destruct rec as [hdr s]. intros [Hlen Hs]. simpl in *.
  do 12 (destruct hdr as [|? hdr]; [simpl in Hlen; lia|]).
  destruct hdr; [|simpl in Hlen; lia].
  unfold bedRecord, bigBedParser. simpl fst. simpl snd.
  rewrite <- !app_assoc. unfold Parser.bind.
  cbn -[Buffer.value Buffer.to_int32 Parser.zstring pretty].
  rewrite drop_0, take_0.
  rewrite zstring_terminated by done. eexists. split; reflexivity.
Qed.

Lemma bigBedParser_unterminated be (tail : Buffer.t) :
  Byte.x00 ∉ drop 12 tail -> bigBedParser be tail = Throw RangeError.
Proof.
  intros Hs.
  do 12 (destruct tail as [|? tail]; [reflexivity|]).
  simpl in Hs. unfold bigBedParser.
  cbn -[Buffer.value Buffer.to_int32 Parser.zstring].
  unfold Parser.bind. rewrite ?drop_0. by rewrite zstring_unterminated.
Qed.

End RecordFacts.

Module BedFacts.
Import Reads ParserFacts DecoderFacts LayoutFacts Layout RecordFacts.

Lemma summary_shift be (pre x : Buffer.t) request :
  BlockView.parseSummaryBlock be (pre ++ x) (Z.of_nat (length pre)) request
  = BlockView.parseSummaryBlock be x 0 request.
Proof.
  unfold BlockView.parseSummaryBlock.
  rewrite <- (Z.add_0_r (Z.of_nat (length pre))).
  by rewrite (records_shift _ (summaryParser_progress be)).
Qed.

(** What a parser returns is what it yields. *)
Lemma yields_value {A} n (p : Parser.t A) (P : A -> Prop) buf a rest :
  yields n p P -> p buf = Ok (a, rest) -> P a.
Proof.
  intros [Hy Hshort] Hrun.
  destruct (decide (length buf < n)%nat) as [Hlt|Hge];
    [by rewrite Hshort in Hrun|].
  destruct (Hy (take n buf)) as (a' & Ha & Hrun');
    [rewrite length_take; lia|].
  rewrite <- (take_drop n buf), Hrun' in Hrun. by injection Hrun as <- _.
Qed.

Section Bed.
Variable be : bool.
Variable startOffset : Z.

Lemma records_bed recs : forall (pre post : Buffer.t) items,
  Forall wellFormed recs ->
  BlockView.records (bigBedParser be) (BlockView.setUniqueId startOffset)
    (pre ++ concat (bedRecord <$> recs) ++ post) (Z.of_nat (length pre)) items
  = BlockView.records (bigBedParser be) (BlockView.setUniqueId startOffset)
      (pre ++ concat (bedRecord <$> recs) ++ post)
      (Z.of_nat (length (pre ++ concat (bedRecord <$> recs))))
      (items ++ bedFeatures be (startOffset + Z.of_nat (length pre)) recs).
Proof.
  induction recs as [|rec recs IH]; intros pre post items Hall.
  - simpl. by rewrite !app_nil_r.
  - apply Forall_cons in Hall as [Hrec Hall].
    destruct (bigBedParser_record be rec (concat (bedRecord <$> recs) ++ post) Hrec)
      as (f & Hrun & Hid).
    assert (0 < length (bedRecord rec))%nat as Hpos.
    { unfold bedRecord. rewrite !length_app. simpl. lia. }
    rewrite (records_unfold _ _ (bigBedParser_progress be)).
    rewrite fmap_cons, concat_cons.
    unfold Buffer.byteLength at 1. rewrite !length_app.
    destruct (Z.ltb_spec (Z.of_nat (length pre))
                (Z.of_nat (length pre
                           + (length (bedRecord rec)
                              + length (concat (bedRecord <$> recs))
                              + length post)))); [|lia].
    rewrite <- (app_assoc (bedRecord rec)), slice_app_length.
    rewrite (WigFacts.parse_block _ _ _ _ Hrun). simpl.
    specialize (IH (pre ++ bedRecord rec) post
                   (items ++ [BlockView.setUniqueId startOffset
                                (Z.of_nat (length pre)) f]) Hall).
    rewrite <- !app_assoc in IH.
    replace (Z.of_nat (length pre)
             + (Buffer.byteLength
                  (bedRecord rec ++ concat (bedRecord <$> recs) ++ post)
                - Buffer.byteLength (concat (bedRecord <$> recs) ++ post)))
      with (Z.of_nat (length (pre ++ bedRecord rec)))
      by (unfold Buffer.byteLength; rewrite !length_app; lia).
    rewrite IH, Hid. simpl. rewrite !length_app.
    f_equal. f_equal. f_equal. f_equal. lia.
Qed.

Lemma records_end {A} (parser : Parser.t A) visit (data : Buffer.t) items :
  BlockView.records parser visit data (Buffer.byteLength data) items = Ok items.
Proof.
  unfold BlockView.records. by rewrite Z.sub_diag.
Qed.

Lemma bigBedParser_shaped buf f rest :
  bigBedParser be buf = Ok (f, rest) -> bedShaped f /\ uniqueId f = None.
Proof.
  unfold bigBedParser, Parser.bind, Parser.ret.
  destruct (Parser.uint32 be buf) as [[c r1]|] eqn:Hc; [|done].
  destruct (Parser.int32 be r1) as [[s r2]|] eqn:Hs; [|done].
  destruct (Parser.int32 be r2) as [[e r3]|] eqn:He; [|done].
  destruct (Parser.zstring r3) as [[z r4]|] eqn:Hz; [|done].
  intros [= <- <-]. split; [|done]. split; [|split; [|done]].
  - exists c, s, e. simpl.
    pose proof (yields_value _ _ _ _ _ _ (yields_uint32 be) Hc).
    pose proof (yields_value _ _ _ _ _ _ (yields_int32 be) Hs).
    pose proof (yields_value _ _ _ _ _ _ (yields_int32 be) He).
    done.
  - exists z. split; [done|]. by eapply zstring_rest.
Qed.

Lemma setUniqueId_shaped currOffset f :
  bedShaped f -> bedShaped (BlockView.setUniqueId startOffset currOffset f).
Proof. done. Qed.

Lemma recordsLoop_numbered n : forall data currOffset items fs offs,
  numbered startOffset offs items -> StronglySorted Z.lt offs ->
  Forall (fun o => o < currOffset) offs -> Forall bedShaped items ->
  BlockView.recordsLoop (bigBedParser be) (BlockView.setUniqueId startOffset)
    n data currOffset items = Ok fs ->
  (exists offs', numbered startOffset offs' fs /\ StronglySorted Z.lt offs')
  /\ Forall bedShaped fs.
Proof.
  induction n as [|n IH]; intros data currOffset items fs offs Hnum Hsorted
    Hbelow Hshaped; simpl.
  - intros [= <-]. split; [by exists offs|done].
  - destruct (currOffset <? Buffer.byteLength data);
      [|intros [= <-]; split; [by exists offs|done]].
    destruct (Parser.parse (bigBedParser be) (Buffer.slice data currOffset))
      as [[res offset]|e] eqn:Hparse; [|done].
    simpl. pose proof (parse_offset_pos _ (bigBedParser_progress be) _ _ _ Hparse).
    unfold Parser.parse in Hparse.
    destruct (bigBedParser be (Buffer.slice data currOffset))
      as [[res' rest']|] eqn:Hrun; [|done].
    injection Hparse as -> _.
    apply bigBedParser_shaped in Hrun as [Hres _].
    apply (IH _ _ _ _ (offs ++ [currOffset])).
    + apply Forall2_app; [done|]. by repeat constructor.
    + apply StronglySorted_app_2; [|done|by repeat constructor].
      intros x1 x2 Hx1 ->%list_elem_of_singleton.
      rewrite Forall_forall in Hbelow. by apply Hbelow.
    + apply Forall_app. split; [|repeat constructor; lia].
      eapply Forall_impl; [exact Hbelow|]. simpl. lia.
    + apply Forall_app. split; [done|].
      constructor; [by apply setUniqueId_shaped|constructor].
Qed.

Lemma sorted_NoDup (offs : list Z) : StronglySorted Z.lt offs -> NoDup offs.
Proof.
  induction 1 as [|x l Hl IH Hall]; constructor; [|done].
  intros Hx. rewrite Forall_forall in Hall. specialize (Hall x Hx). lia.
Qed.

Lemma numbered_ids offs fs :
  numbered startOffset offs fs ->
  uniqueId <$> fs
  = (fun o => Some ("bb-" +:+ pretty (startOffset + o))) <$> offs.
Proof.
  induction 1 as [|o f offs fs Hf _ IH]; [done|].
  by rewrite !fmap_cons, Hf, IH.
Qed.

Lemma numbered_NoDup offs fs :
  numbered startOffset offs fs -> StronglySorted Z.lt offs ->
  NoDup (uniqueId <$> fs).
Proof.
  intros Hnum Hsorted. rewrite (numbered_ids _ _ Hnum).
  apply NoDup_fmap_2; [|by apply sorted_NoDup].
  intros x y [= H%String.app_inj%pretty_Z_inj]. lia.
Qed.

End Bed.

Lemma filter_sublist {A} (f : A -> bool) l : List.filter f l `sublist_of` l.
Proof.
  induction l as [|x l IH]; simpl; [constructor|].
  destruct (f x); by constructor.
Qed.

Lemma filterRequest_sublist request items :
  BlockView.filterRequest request items `sublist_of` items.
Proof. destruct request; [apply filter_sublist|done]. Qed.

End BedFacts.

(** X18. A summary block whose last record is cut short makes
    [parseSummaryBlock] throw a [RangeError], after the whole records
    before it were decoded: it returns no feature. *)
Theorem summary_partial_record_throws be (pre : Buffer.t)
    (recs : list Buffer.t) (tail : Buffer.t) request :
  Forall (fun r => length r = 32%nat) recs ->
  (0 < length tail < 32)%nat ->
  BlockView.parseSummaryBlock be (pre ++ concat recs ++ tail)
                              (Z.of_nat (length pre)) request
  = Throw RangeError.
Proof.
  intros Hrecs Htail. unfold BlockView.parseSummaryBlock.
  by rewrite (RecordFacts.records_partial _
                (DecoderFacts.summaryParser_progress be) _ 32 _
                (ParserFacts.yields_summaryParser be)).
Qed.

Lemma summary_partial_record_throws_witness :
  let tail := take 31 Sample.summaryRecord in
  Forall (fun r => length r = 32%nat) [Sample.summaryRecord]
  /\ (0 < length tail < 32)%nat
  /\ BlockView.parseSummaryBlock false
       ([] ++ concat [Sample.summaryRecord] ++ tail) (Z.of_nat (length (@nil byte)))
       None
     = Throw RangeError.
Proof.
  intros tail.
  assert (Forall (fun r => length r = 32%nat) [Sample.summaryRecord]) as H1
    by (repeat constructor).
  assert (0 < length tail < 32)%nat as H2 by (vm_compute; lia).
  split; [exact H1|]. split; [exact H2|].
  exact (summary_partial_record_throws false [] [Sample.summaryRecord] tail
           None H1 H2).
Defined.

(** X19. [parseSummaryBlock(data, startOffset)] is
    [parseSummaryBlock(data.slice(startOffset), 0)]: what comes before
    [startOffset] plays no role, and the records are read up to the end of
    the buffer. *)
Theorem summary_from_offset be (pre x : Buffer.t) request :
  BlockView.parseSummaryBlock be (pre ++ x) (Z.of_nat (length pre)) request
  = BlockView.parseSummaryBlock be x 0 request.
Proof. apply BedFacts.summary_shift. Qed.

(** X20. A bigBed block made of whole records decodes to one feature for
    each record, with the record's [chromId], [start], [end] and [rest], and
    the identifier [bb-N] where [N] is [startOffset] plus the offset of the
    record in the buffer (so twice [startOffset], plus the bytes of the
    records before it). *)
Theorem bigbed_block be (pre : Buffer.t) (recs : list (Buffer.t * list byte))
    request :
  Forall Layout.wellFormed recs ->
  BlockView.parseBigBedBlock be (pre ++ concat (Layout.bedRecord <$> recs))
                             (Z.of_nat (length pre)) request
  = Ok (BlockView.filterRequest request
          (Layout.bedFeatures be (2 * Z.of_nat (length pre)) recs)).
Proof.
  intros Hrecs. unfold BlockView.parseBigBedBlock.
  pose proof (BedFacts.records_bed be (Z.of_nat (length pre)) recs pre [] []
                Hrecs) as Hrec.
  rewrite !app_nil_r in Hrec. rewrite Hrec.
  change (Z.of_nat (length (pre ++ concat (Layout.bedRecord <$> recs))))
    with (Buffer.byteLength (pre ++ concat (Layout.bedRecord <$> recs))).
  rewrite BedFacts.records_end. simpl. do 3 f_equal. lia.
Qed.

Lemma bigbed_block_witness :
  let recs := [(Sample.u32 0 ++ Sample.u32 5 ++ Sample.u32 9, [Byte.x41]);
               (Sample.u32 0 ++ Sample.u32 50 ++ Sample.u32 90, [])] in
  Forall Layout.wellFormed recs
  /\ concat (Layout.bedRecord <$> recs) = Sample.bedBlock
  /\ BlockView.parseBigBedBlock false ([] ++ concat (Layout.bedRecord <$> recs))
       (Z.of_nat (length (@nil byte))) None
     = Ok (BlockView.filterRequest None
             (Layout.bedFeatures false (2 * Z.of_nat (length (@nil byte))) recs)).
Proof.
  intros recs.
  assert (Forall Layout.wellFormed recs) as H.
  { repeat constructor; simpl.
    - intros [Hx|Hx%elem_of_nil]%elem_of_cons; [discriminate|done].
    - apply not_elem_of_nil. }
  split; [exact H|]. split; [reflexivity|].
  exact (bigbed_block false [] recs None H).
Defined.

(** X21. A bigBed block that ends in a record without its zero byte, or
    with fewer than 12 bytes, makes [parseBigBedBlock] throw a
    [RangeError]. *)
Theorem bigbed_unterminated be (pre : Buffer.t)
    (recs : list (Buffer.t * list byte)) (tail : Buffer.t) request :
  Forall Layout.wellFormed recs ->
  tail <> [] -> Byte.x00 ∉ drop 12 tail ->
  BlockView.parseBigBedBlock be
    (pre ++ concat (Layout.bedRecord <$> recs) ++ tail)
    (Z.of_nat (length pre)) request
  = Throw RangeError.
Proof.
  intros Hrecs Hne Htail. unfold BlockView.parseBigBedBlock.
  rewrite (BedFacts.records_bed be (Z.of_nat (length pre)) recs pre tail []
             Hrecs).
  rewrite (DecoderFacts.records_unfold _ _ (DecoderFacts.bigBedParser_progress be)).
  rewrite app_assoc. unfold Buffer.byteLength. rewrite (length_app _ tail).
  destruct (Z.ltb_spec
              (Z.of_nat (length (pre ++ concat (Layout.bedRecord <$> recs))))
              (Z.of_nat (length (pre ++ concat (Layout.bedRecord <$> recs))
                         + length tail))) as [_|Hge].
  - rewrite DecoderFacts.slice_app_length. unfold Parser.parse.
    by rewrite RecordFacts.bigBedParser_unterminated.
  - destruct tail; [done|]. simpl in Hge. lia.
Qed.

Lemma bigbed_unterminated_witness :
  let recs := [(Sample.u32 0 ++ Sample.u32 5 ++ Sample.u32 9, [Byte.x41])] in
  let tail := Sample.u32 0 ++ Sample.u32 50 ++ Sample.u32 90 ++ [Byte.x42] in
  Forall Layout.wellFormed recs
  /\ tail <> [] /\ (Byte.x00 ∉ drop 12 tail)
  /\ BlockView.parseBigBedBlock false
       ([] ++ concat (Layout.bedRecord <$> recs) ++ tail)
       (Z.of_nat (length (@nil byte))) None
     = Throw RangeError.
Proof.
  intros recs tail.
  assert (Forall Layout.wellFormed recs) as H1.
  { repeat constructor; simpl.
    intros [Hx|Hx%elem_of_nil]%elem_of_cons; [discriminate|done]. }
  assert (tail <> []) as H2 by discriminate.
  assert (Byte.x00 ∉ drop 12 tail) as H3.
  { simpl. intros [Hx|Hx%elem_of_nil]%elem_of_cons; [discriminate|done]. }
  split; [exact H1|]. split; [exact H2|]. split; [exact H3|].
  exact (bigbed_unterminated false [] recs tail None H1 H2 H3).
Defined.

(** X22. Whatever the bytes of a bigBed block, the features that
    [parseBigBedBlock] returns have pairwise distinct [uniqueId]s, and each
    has a [chromId], a [start], an [end] and a [rest] without a zero byte. *)
Theorem bigbed_unique_ids be (data : Buffer.t) startOffset request fs :
  BlockView.parseBigBedBlock be data startOffset request = Ok fs ->
  NoDup (uniqueId <$> fs) /\ Forall Layout.bedShaped fs.
Proof.
  unfold BlockView.parseBigBedBlock, BlockView.records.
  destruct (BlockView.recordsLoop _ _ _ _ _ _) as [items|e] eqn:Hloop; [|done].
  simpl. intros [= <-].
  destruct (BedFacts.recordsLoop_numbered be startOffset _ _ _ [] items []
              ltac:(constructor) ltac:(constructor) ltac:(constructor)
              ltac:(constructor) Hloop)
    as [(offs & Hnum & Hsorted) Hshaped].
  pose proof (BedFacts.filterRequest_sublist request items) as Hsub.
  split.
  - eapply sublist_NoDup; [by eapply BedFacts.numbered_NoDup|].
    by apply fmap_sublist.
  - rewrite Forall_forall in *. intros f Hf. apply Hshaped.
    by eapply elem_of_sublist.
Qed.

Lemma bigbed_unique_ids_witness :
  let fs := [ {| start := Some 50; end_ := Some 90; score := None;
                 minScore := None; maxScore := None; summary := false;
                 chromId := Some 0; rest := Some [];
                 uniqueId := Some "bb-14"%string |} ] in
  BlockView.parseBigBedBlock false Sample.bedBlock 0
    (Some (mkRequest (Some 0) 40 60)) = Ok fs
  /\ NoDup (uniqueId <$> fs) /\ Forall Layout.bedShaped fs.
Proof.
  intros fs.
  assert (BlockView.parseBigBedBlock false Sample.bedBlock 0
            (Some (mkRequest (Some 0) 40 60)) = Ok fs) as H by reflexivity.
  split; [exact H|].
  exact (bigbed_unique_ids false Sample.bedBlock 0 _ fs H).
Defined.

(** X28. [filterFeats] keeps the entries of the index whose interval of
    (chromosome, base) keys meets the bases [start] to [end] of the
    requested chromosome, [end] included, and no other entry. *)
Theorem filterFeats_meets (request : CoordRequest) (chrom : Z) (b : CirEntry) :
  chrId request = Some chrom ->
  req_start request <= req_end request ->
  Index.before (startChrom b) (startBase b) (endChrom b) (endBase b) ->
  BlockView.filterFeats request b = true
  <-> exists pos, req_start request <= pos <= req_end request
                  /\ Index.spans b chrom pos.
Proof.
  intros Hchrom Hreq Hentry. unfold BlockView.filterFeats. rewrite Hchrom.
  unfold Index.spans, Index.before in *.
  rewrite andb_true_iff, !orb_true_iff, !andb_true_iff.
  rewrite Z.ltb_lt, Z.gtb_lt, !Z.eqb_eq, Z.leb_le, Z.geb_le.
  split.
  - intros [Hlo Hhi].
    exists (Z.max (req_start request)
                  (if startChrom b =? chrom then startBase b
                   else req_start request)).
    destruct (Z.eqb_spec (startChrom b) chrom); lia.
  - intros (pos & Hpos & Hlo & Hhi). lia.
Qed.

Lemma filterFeats_meets_witness :
  let request := mkRequest (Some 0) 12 14 in
  let b := mkEntry 0 0 0 1000 84 (Some 36) in
  (chrId request = Some 0
   /\ req_start request <= req_end request
   /\ Index.before (startChrom b) (startBase b) (endChrom b) (endBase b))
  /\ (BlockView.filterFeats request b = true
      <-> exists pos, req_start request <= pos <= req_end request
                      /\ Index.spans b 0 pos).
Proof.
  intros request b.
  assert (chrId request = Some 0) as H1 by reflexivity.
  assert (req_start request <= req_end request) as H2 by (simpl; lia).
  assert (Index.before (startChrom b) (startBase b) (endChrom b) (endBase b))
    as H3 by (right; simpl; lia).
  split; [exact (conj H1 (conj H2 H3))|].
  exact (filterFeats_meets request 0 b H1 H2 H3).
Defined.

(** ** requestWorker.ts *)

Module WorkerFacts.

Section Worker.
Variables min max : Z.

Lemma filter_step {A} (f : A -> bool) x l l' :
  List.filter f l = List.filter f l' ->
  List.filter f (x :: l) = List.filter f (x :: l').
Proof. simpl. by intros ->. Qed.

Lemma vstepEnds_from (recs : list Buffer.t) : forall r,
  List.filter (RequestWorker.coordFilter min max)
    (RequestWorker.vstepEnds
       ((fun r =>
           item (Some (Buffer.to_int32 (Buffer.value false (take 4 r)))) None
                (Buffer.float_of_bits32 (Buffer.value false (drop 4 r))))
        <$> r :: recs))
  = List.filter (RequestWorker.coordFilter min max)
      (zip_with
         (fun r nxt =>
            item (Some (Buffer.to_int32 (Buffer.value false (take 4 r))))
                 (Some (Buffer.to_int32 (Buffer.value false (take 4 nxt)) - 1))
                 (Buffer.float_of_bits32 (Buffer.value false (drop 4 r))))
         (r :: recs) recs).
Proof.
  induction recs as [|nxt recs IH]; intros r; [done|].
  rewrite !fmap_cons. specialize (IH nxt). rewrite fmap_cons in IH.
  exact (filter_step _ _ _ _ IH).
Qed.

Lemma vstepEnds_records (recs : list Buffer.t) :
  List.filter (RequestWorker.coordFilter min max)
    (RequestWorker.vstepEnds
       ((fun r =>
           item (Some (Buffer.to_int32 (Buffer.value false (take 4 r)))) None
                (Buffer.float_of_bits32 (Buffer.value false (drop 4 r))))
        <$> recs))
  = List.filter (RequestWorker.coordFilter min max)
      (zip_with
         (fun r nxt =>
            item (Some (Buffer.to_int32 (Buffer.value false (take 4 r))))
                 (Some (Buffer.to_int32 (Buffer.value false (take 4 nxt)) - 1))
                 (Buffer.float_of_bits32 (Buffer.value false (drop 4 r))))
         recs (drop 1 recs)).
Proof. destruct recs as [|r recs]; [done|]. apply vstepEnds_from. Qed.

End Worker.
End WorkerFacts.

(** X30. The worker that [blockView.ts] replaces reads a variable-step block
    otherwise: the feature of a record ends one base before the start of
    the next record, whatever [itemSpan] is, and the last record of the
    block, which is given no end, is never returned.  [itemCount] is read
    in the byte order of the file, the records little-endian. *)
Theorem worker_vstep_block be (min max : Z) (hdr : Buffer.t)
    (recs : list Buffer.t) (trailing : Buffer.t) :
  length hdr = 24%nat ->
  Buffer.byte_val <$> hdr !! 20%nat = Some BIG_WIG_TYPE_VSTEP ->
  Buffer.value be (take 2 (drop 22 hdr)) = Z.of_nat (length recs) ->
  Forall (fun r => length r = 8%nat) recs ->
  RequestWorker.parseBigWigBlock be min max (hdr ++ concat recs ++ trailing) 0
  = Ok (List.filter (RequestWorker.coordFilter min max)
          (zip_with
             (fun r nxt =>
                item (Some (Buffer.to_int32 (Buffer.value false (take 4 r))))
                     (Some (Buffer.to_int32
                              (Buffer.value false (take 4 nxt)) - 1))
                     (Buffer.float_of_bits32 (Buffer.value false (drop 4 r))))
             recs (drop 1 recs))).
Proof.
  intros Hlen Ht Hcnt Hrecs. unfold RequestWorker.parseBigWigBlock.
  rewrite DecoderFacts.slice_0.
  pose proof (LayoutFacts.bigWigParser_header be hdr
                (concat recs ++ trailing) Hlen) as Hhdr.
  cbv zeta in Hhdr. cbn [blockType itemCount] in Hhdr.
  rewrite (WigFacts.type_byte_app hdr trailing _ Hlen Ht), Hcnt, Nat2Z.id in Hhdr.
  simpl in Hhdr. unfold Parser.bind in Hhdr.
  rewrite (LayoutFacts.array_map 8 _ _ WigFacts.vstepItem_record _ _ Hrecs)
    in Hhdr.
  rewrite (WigFacts.parse_block _ _ _ _ Hhdr). simpl.
  f_equal. apply WorkerFacts.vstepEnds_records.
Qed.

Lemma worker_vstep_block_witness :
  let hdr :=
    Buffer.bytes true 4 0 ++ Buffer.bytes true 4 100 ++ Buffer.bytes true 4 120
    ++ Buffer.bytes true 4 0 ++ Buffer.bytes true 4 5
    ++ [Byte.x02; Byte.x00] ++ Buffer.bytes true 2 2 in
  let recs := [Sample.u32 100 ++ Sample.u32 0x3DCCCCCD;
               Sample.u32 110 ++ Sample.u32 0x3E4CCCCD] in
  (length hdr = 24%nat
   /\ Buffer.byte_val <$> hdr !! 20%nat = Some BIG_WIG_TYPE_VSTEP
   /\ Buffer.value true (take 2 (drop 22 hdr)) = Z.of_nat (length recs)
   /\ Forall (fun r => length r = 8%nat) recs)
  /\ RequestWorker.parseBigWigBlock true 0 1000 (hdr ++ concat recs ++ []) 0
     = Ok [ item (Some 100) (Some 109) (Buffer.float_of_bits32 0x3DCCCCCD) ]
  /\ BlockView.parseBigWigBlock true (hdr ++ concat recs ++ []) 0
       (Some (mkRequest (Some 0) 0 1000))
     = Ok [ item (Some 100) (Some 105) (Buffer.float_of_bits32 0x3DCCCCCD);
            item (Some 110) (Some 115) (Buffer.float_of_bits32 0x3E4CCCCD) ].
Proof.
  intros hdr recs.
  assert (length hdr = 24%nat) as H1 by reflexivity.
  assert (Buffer.byte_val <$> hdr !! 20%nat = Some BIG_WIG_TYPE_VSTEP) as H2
    by reflexivity.
  assert (Buffer.value true (take 2 (drop 22 hdr)) = Z.of_nat (length recs))
    as H3 by reflexivity.
  assert (Forall (fun r => length r = 8%nat) recs) as H4
    by (repeat constructor).
  split; [exact (conj H1 (conj H2 (conj H3 H4)))|].
  split; [|vm_compute; reflexivity].
  exact (worker_vstep_block true 0 1000 hdr recs [] H1 H2 H3 H4).
Defined.
